(** * Preference scoring, rating and recommendation-gateway services

    A shallow embedding of the data layer of the mobile app:
    - [EventService]          (eventService.js: fetchEvents, getEventById,
                               computePreferenceDelta, updateUserPreferences,
                               addRating, addToTrip),
    - [ListingService]        (listingService.ts: updateListingRating,
                               triggerRecommendationUpdate),
    - [InteractionService]    (interactionService.ts: the track* methods),
    - [RecommendationService] (recommendationService.ts: the gateway).

    The services talk to a hosted backend.  The backend is modelled by a
    [World]: its tables, the recommendation engine, the console, and a
    script of replies that says, call by call, whether the next remote
    operation is carried out, answers with an error object, or rejects.
    Every [async] function becomes a computation in the monad [M] of
    world-passing computations that either return or throw.

    JavaScript numbers are modelled by exact rationals ([Qc]): one
    arithmetic operation of the code is its exact counterpart, up to the
    rounding of its result to a double.  Sums of several numbers agree
    with the code where doubles are exact; the statements that chain
    additions say so ([safe_integers]).  Timestamps ([created_at],
    [updated_at]) are left out of the rows. *)

From Stdlib Require Import QArith Qcanon.
From stdpp Require Import base numbers list strings gmap.

Set Warnings "-register-all".
Local Open Scope Qc_scope.

(** ** JavaScript values *)

Module Js.

(** JSON-shaped values, as [supabase.functions.invoke] hands them over. *)
Inductive value :=
| Undefined
| Null
| Bool (b : bool)
| Num (q : Qc)
| Str (s : string)
| Arr (items : list value)
| Obj (fields : list (string * value)).

(** [Array.isArray(v)] *)
Definition isArray (v : value) : bool :=
  match v with Arr _ => true | _ => false end.

(** [!!v] *)
Definition truthy (v : value) : bool :=
  match v with
  | Undefined | Null => false
  | Bool b => b
  | Num q => bool_decide (q ≠ 0)
  | Str s => bool_decide (s ≠ "")
  | Arr _ | Obj _ => true
  end.

Fixpoint assoc (k : string) (fields : list (string * value)) : value :=
  match fields with
  | [] => Undefined
  | (k', v) :: rest => if bool_decide (k' = k) then v else assoc k rest
  end.

(** [v.k] on a value that is neither [null] nor [undefined]: an own
    property of an object, [undefined] otherwise. *)
Definition get (v : value) (k : string) : value :=
  match v with Obj fields => assoc k fields | _ => Undefined end.

(** [s || undefined] on an optional string: the empty string is falsy. *)
Definition nonempty (s : option string) : option string :=
  match s with
  | Some EmptyString => None
  | _ => s
  end.

(** [x || 0] on a number. *)
Definition or_zero (x : Qc) : Qc := if bool_decide (x = 0) then 0 else x.

(** [x || d] on an optional number: a missing number and 0 are falsy. *)
Definition or_num (x : option Qc) (d : Qc) : Qc :=
  match x with
  | Some q => if bool_decide (q = 0) then d else q
  | None => d
  end.

End Js.

(** ** Errors, replies and rows *)

(** The error object of a supabase response, [{ code, message }]. *)
Record pgerror := { code : string; message : string }.

(** What a [throw] can carry. *)
Inductive exn :=
| JsError (msg : string)        (* new Error(msg) *)
| PgError (e : pgerror)         (* throw error, an error object of the backend *)
| TypeError (msg : string).     (* a property read on null *)

(** One remote call: carried out, answered with an error object, or the
    promise rejects. *)
Inductive reply :=
| Fine
| Fails (e : pgerror)
| Rejects (x : exn).

(** [{ data, error }] *)
Record response (A : Type) := { data : option A; error : option pgerror }.
Arguments data {A} _.
Arguments error {A} _.

Definition PGRST116 : pgerror :=
  {| code := "PGRST116"; message := "JSON object requested, multiple (or no) rows returned" |}.

(** [.single()]: exactly one row, or the PGRST116 error. *)
Definition single {A} (rows : list A) : response A :=
  match rows with
  | [r] => {| data := Some r; error := None |}
  | _ => {| data := None; error := Some PGRST116 |}
  end.

(** events: id, title, tags (text[]), category *)
Record EventRow := {
  ev_id : string;
  ev_title : string;
  ev_tags : option (list string);
  ev_category : option string
}.

(** event_ratings: id, user_id, event_id, rating, comment.  The id is a
    serial number; 0 is the id that [existing.id] takes for falsy. *)
Record EventRating := {
  er_id : nat;
  er_user_id : string;
  er_event_id : string;
  er_rating : Qc;
  er_comment : option string
}.

(** user_trips: user_id, event_id, trip_id *)
Record TripRow := {
  tr_user_id : string;
  tr_event_id : string;
  tr_trip_id : option string
}.

(** ratings (listings): rating, review_text, trip_id; the key
    (user_id, listing_id) is the key of the table in [World]. *)
Record ListingRating := {
  lr_rating : Qc;
  lr_review_text : option string;
  lr_trip_id : option string
}.

Inductive InteractionType :=
| view | save | book | swipe_left | swipe_right | click | share | message_.

Inductive SwipeDirection := Left | Right.

(** user_interactions *)
Record Interaction := {
  ia_user_id : string;
  ia_listing_id : string;
  ia_property_id : option string;
  ia_interaction_type : InteractionType;
  ia_weight : Qc;
  ia_metadata : option string
}.

Inductive RecommendationContext := fyp | explore | after_booking | trip.

Record RecommendationParams := {
  location : option (Qc * Qc);
  seedListingId : option string;
  tripId : option string;
  limit : option Z;
  page : option Z;
  excludeSeen : option bool
}.

Record RecommendationRequest := {
  context : RecommendationContext;
  userId : string;
  params : option RecommendationParams
}.

(** The listing query of [fetchEvents], as it is sent to the backend. *)
Record EventsQuery := {
  q_contains_tags : option (list string);
  q_range : Z * Z;
  q_order : string
}.

(** ** The backend *)

Record World := {
  session : option string;                  (* id of the signed-in user *)
  events : list EventRow;
  listing : EventsQuery → list EventRow → list EventRow;
                                            (* filter, order and range, as the
                                               database evaluates them *)
  event_ratings : list EventRating;
  next_id : nat;                            (* next serial id of event_ratings *)
  user_preferences : gmap (string * string) Qc;
                                            (* unique on (user_id, tag) *)
  user_trips : list TripRow;
  ratings : gmap (string * string) ListingRating;
  user_interactions : list Interaction;
  engine : RecommendationRequest → Js.value;
                                            (* the "recommendations" function *)
  script : list reply;                      (* replies to the coming calls *)
  console : list string
}.

Definition set_event_ratings (rows : list EventRating) (n : nat) (w : World) : World :=
  {| session := session w; events := events w; listing := listing w;
     event_ratings := rows; next_id := n;
     user_preferences := user_preferences w; user_trips := user_trips w;
     ratings := ratings w; user_interactions := user_interactions w;
     engine := engine w; script := script w; console := console w |}.

Definition set_user_preferences (m : gmap (string * string) Qc) (w : World) : World :=
  {| session := session w; events := events w; listing := listing w;
     event_ratings := event_ratings w; next_id := next_id w;
     user_preferences := m; user_trips := user_trips w;
     ratings := ratings w; user_interactions := user_interactions w;
     engine := engine w; script := script w; console := console w |}.

Definition set_user_trips (rows : list TripRow) (w : World) : World :=
  {| session := session w; events := events w; listing := listing w;
     event_ratings := event_ratings w; next_id := next_id w;
     user_preferences := user_preferences w; user_trips := rows;
     ratings := ratings w; user_interactions := user_interactions w;
     engine := engine w; script := script w; console := console w |}.

Definition set_ratings (m : gmap (string * string) ListingRating) (w : World) : World :=
  {| session := session w; events := events w; listing := listing w;
     event_ratings := event_ratings w; next_id := next_id w;
     user_preferences := user_preferences w; user_trips := user_trips w;
     ratings := m; user_interactions := user_interactions w;
     engine := engine w; script := script w; console := console w |}.

Definition set_user_interactions (rows : list Interaction) (w : World) : World :=
  {| session := session w; events := events w; listing := listing w;
     event_ratings := event_ratings w; next_id := next_id w;
     user_preferences := user_preferences w; user_trips := user_trips w;
     ratings := ratings w; user_interactions := rows;
     engine := engine w; script := script w; console := console w |}.

Definition set_script (rs : list reply) (w : World) : World :=
  {| session := session w; events := events w; listing := listing w;
     event_ratings := event_ratings w; next_id := next_id w;
     user_preferences := user_preferences w; user_trips := user_trips w;
     ratings := ratings w; user_interactions := user_interactions w;
     engine := engine w; script := rs; console := console w |}.

Definition set_console (out : list string) (w : World) : World :=
  {| session := session w; events := events w; listing := listing w;
     event_ratings := event_ratings w; next_id := next_id w;
     user_preferences := user_preferences w; user_trips := user_trips w;
     ratings := ratings w; user_interactions := user_interactions w;
     engine := engine w; script := script w; console := out |}.

(** ** Computations: state passing with exceptions *)

Inductive completion (A : Type) :=
| Return (a : A)
| Throw (x : exn).
Arguments Return {A} _.
Arguments Throw {A} _.

Definition M (A : Type) : Type := World → completion A * World.

Definition ret {A} (a : A) : M A := λ w, (Return a, w).

Definition throw {A} (x : exn) : M A := λ w, (Throw x, w).

Definition bind {A B} (m : M A) (k : A → M B) : M B :=
  λ w, match m w with
       | (Return a, w') => k a w'
       | (Throw x, w') => (Throw x, w')
       end.

(** [try { m } catch (err) { handler err }]: what [m] did to the world
    before it threw stays done. *)
Definition try_catch {A} (m : M A) (handler : exn → M A) : M A :=
  λ w, match m w with
       | (Throw x, w') => handler x w'
       | returned => returned
       end.

Notation "x <~ m ;; k" := (bind m (λ x, k))
  (at level 100, m at next level, right associativity).

(** [for (const x of xs) { body x }] *)
Fixpoint for_of {A} (xs : list A) (body : A → M unit) : M unit :=
  match xs with
  | [] => ret tt
  | x :: rest => _ <~ body x ;; for_of rest body
  end.

(** [console.error], [console.debug] *)
Definition console_log (msg : string) : M unit :=
  λ w, (Return tt, set_console (console w ++ [msg]) w).

Definition next_reply : M reply :=
  λ w, match script w with
       | [] => (Return Fine, w)
       | r :: rs => (Return r, set_script rs w)
       end.

(** A remote call: the backend carries out [op], or answers with an error
    object and leaves the tables alone, or the call rejects. *)
Definition remote {A} (op : World → response A * World) : M (response A) :=
  r <~ next_reply ;;
  match r with
  | Fine => λ w, let (res, w') := op w in (Return res, w')
  | Fails e => ret {| data := None; error := Some e |}
  | Rejects x => throw x
  end.

Definition ok {A} (a : option A) : response A := {| data := a; error := None |}.

(** ** Queries the services issue *)

(** An event row with its embedded relation [event_ratings(...)]. *)
Record EventWithRatings := {
  row : EventRow;
  rel_event_ratings : option (list EventRating)
}.

Definition ratings_of_event (w : World) (eventId : string) : list EventRating :=
  filter (λ r, er_event_id r = eventId) (event_ratings w).

Definition embed (w : World) (e : EventRow) : EventWithRatings :=
  {| row := e; rel_event_ratings := Some (ratings_of_event w (ev_id e)) |}.

(** [supabase.auth.getUser()] *)
Definition auth_getUser : M (response string) :=
  remote (λ w, (ok (session w), w)).

(** [from('events').select('*, event_ratings(rating)')] with the filter,
    range and order of the query *)
Definition select_events (q : EventsQuery) : M (response (list EventWithRatings)) :=
  remote (λ w, (ok (Some (embed w <$> listing w q (events w))), w)).

(** [from('events').select(...).eq('id', eventId).single()] *)
Definition select_event (eventId : string) : M (response EventWithRatings) :=
  remote (λ w, (single (embed w <$> filter (λ e, ev_id e = eventId) (events w)), w)).

(** [from('event_ratings').select('*').eq('user_id', uid).eq('event_id', eventId).single()] *)
Definition select_event_rating (uid eventId : string) : M (response EventRating) :=
  remote (λ w,
    (single (filter (λ r, er_user_id r = uid ∧ er_event_id r = eventId) (event_ratings w)), w)).

Definition with_rating (rating : Qc) (comment : option string) (r : EventRating) : EventRating :=
  {| er_id := er_id r; er_user_id := er_user_id r; er_event_id := er_event_id r;
     er_rating := rating; er_comment := comment |}.

(** [from('event_ratings').update({ rating, comment, updated_at }).eq('id', id)] *)
Definition update_event_rating (id : nat) (rating : Qc) (comment : option string)
  : M (response unit) :=
  remote (λ w,
    (ok None,
     set_event_ratings
       ((λ r, if bool_decide (er_id r = id) then with_rating rating comment r else r)
          <$> event_ratings w)
       (next_id w) w)).

(** [from('event_ratings').insert({ user_id, event_id, rating, comment })] *)
Definition insert_event_rating (uid eventId : string) (rating : Qc) (comment : option string)
  : M (response unit) :=
  remote (λ w,
    (ok None,
     set_event_ratings
       (event_ratings w ++
          [{| er_id := next_id w; er_user_id := uid; er_event_id := eventId;
              er_rating := rating; er_comment := comment |}])
       (S (next_id w)) w)).

(** user_preferences: user_id, tag, score *)
Record PreferenceRow := {
  pr_user_id : string;
  pr_tag : string;
  pr_score : Qc
}.

(** [from('user_preferences').select('*').eq('user_id', userId).eq('tag', tag).single()] *)
Definition select_preference (uid tag : string) : M (response PreferenceRow) :=
  remote (λ w,
    (match user_preferences w !! (uid, tag) with
     | Some s => ok (Some {| pr_user_id := uid; pr_tag := tag; pr_score := s |})
     | None => {| data := None; error := Some PGRST116 |}
     end, w)).

(** [from('user_preferences').upsert(payload, { onConflict: ['user_id', 'tag'] })] *)
Definition upsert_preference (payload : PreferenceRow) : M (response unit) :=
  remote (λ w,
    (ok None,
     set_user_preferences
       (<[(pr_user_id payload, pr_tag payload) := pr_score payload]> (user_preferences w)) w)).

(** [from('user_trips').insert(payload)] *)
Definition insert_user_trip (payload : TripRow) : M (response unit) :=
  remote (λ w, (ok None, set_user_trips (user_trips w ++ [payload]) w)).

(** [from('user_preferences').select('*').eq('user_id', uid)]: the rows
    of the user, in the order the table lists them. *)
Definition select_preferences (uid : string) : M (response (list PreferenceRow)) :=
  remote (λ w,
    (ok (Some ((λ kv, {| pr_user_id := kv.1.1; pr_tag := kv.1.2; pr_score := kv.2 |})
                 <$> filter (λ kv, kv.1.1 = uid) (map_to_list (user_preferences w)))), w)).


(** ** eventService.js *)

Module EventService.

(** [getCurrentUserId]: the id of the signed-in user, [null] on any
    failure. *)
Definition getCurrentUserId : M (option string) :=
  try_catch
    (r <~ auth_getUser ;;
     match error r with
     | Some _ => ret None
     | None => ret (data r)
     end)
    (λ _, ret None).

(** An event as [fetchEvents] and [getEventById] return it:
    [{ ...evt, avgRating, ratingsCount }]. *)
Record EventView := {
  evt : EventWithRatings;
  avgRating : option Qc;
  ratingsCount : nat
}.

(** The body shared by [fetchEvents] and [getEventById]:
    [ratings.length ? ratings.reduce((s, r) => s + Number(r.rating || 0), 0) / ratings.length : null] *)
Definition with_stats (e : EventWithRatings) : EventView :=
  let ratings := default [] (rel_event_ratings e) in
  let avg :=
    match length ratings with
    | O => None
    | S _ =>
        Some (foldl (λ s r, s + Js.or_zero (er_rating r)) 0 ratings
              / Q2Qc (inject_Z (Z.of_nat (length ratings))))
    end in
  {| evt := e; avgRating := avg; ratingsCount := length ratings |}.

(** The options of [fetchEvents], with their defaults. *)
Record FetchOptions := {
  opt_limit : Z;
  opt_offset : Z;
  opt_tags : option (list string);
  opt_orderBy : string
}.


Definition fetchEvents (opts : FetchOptions) : M (list EventView) :=
  try_catch
    (let q :=
       {| q_contains_tags :=
            match opt_tags opts with
            | Some (t :: ts) => Some (t :: ts)
            | _ => None
            end;
          q_range := (opt_offset opts, opt_offset opts + opt_limit opts - 1)%Z;
          q_order := opt_orderBy opts |} in
     r <~ select_events q ;;
     match error r with
     | Some e => throw (PgError e)
     | None => ret (with_stats <$> default [] (data r))
     end)
    (λ err, _ <~ console_log "fetchEvents error" ;; throw err).

Definition getEventById (eventId : option string) : M EventView :=
  match Js.nonempty eventId with
  | None => throw (JsError "eventId is required")
  | Some eventId =>
      try_catch
        (r <~ select_event eventId ;;
         match error r with
         | Some e => throw (PgError e)
         | None =>
             match data r with
             | None => throw (TypeError "Cannot read properties of null (reading 'event_ratings')")
             | Some d => ret (with_stats d)
             end
         end)
        (λ err, _ <~ console_log "getEventById error" ;; throw err)
  end.

(** [(Number(rating) - center) * weight] with [center = 3.0]; the
    parameter [weight = 1.0] may be left out. *)
Definition computePreferenceDelta (rating : Qc) (weight : option Qc) : Qc :=
  let weight := default 1 weight in
  let center := Q2Qc 3 in
  let delta := (rating - center) * weight in
  delta.

Definition updateUserPreferences (userId : option string) (tags : list string) (delta : Qc)
  : M Js.value :=
  match Js.nonempty userId with
  | None => throw (JsError "userId required")
  | Some userId =>
      match tags with
      | [] => ret Js.Undefined
      | _ =>
          try_catch
            (_ <~ for_of tags (λ tag,
               existing <~ select_preference userId tag ;;
               (* if (fetchErr && fetchErr.code !== 'PGRST116') { } : the
                  block holds comments only, no error of the read is
                  rethrown *)
               let currentScore := default 0 (pr_score <$> data existing) in
               let newScore := currentScore + delta in
               let payload := {| pr_user_id := userId; pr_tag := tag; pr_score := newScore |} in
               up <~ upsert_preference payload ;;
               match error up with
               | Some upsertErr => throw (PgError upsertErr)
               | None => ret tt
               end) ;;
             ret (Js.Bool true))
            (λ err, _ <~ console_log "updateUserPreferences error" ;; throw err)
      end
  end.

(** [event.tags || (event.category ? [event.category] : [])] *)
Definition tags_to_update (e : EventRow) : list string :=
  match ev_tags e with
  | Some tags => tags
  | None =>
      match Js.nonempty (ev_category e) with
      | Some c => [c]
      | None => []
      end
  end.

Definition addRating (userId eventId : option string) (rating : option Qc)
    (comment : option string) : M EventView :=
  match Js.nonempty eventId with
  | None => throw (JsError "eventId required")
  | Some eventId =>
  match rating with
  | None => throw (JsError "rating required")
  | Some rating =>
  if bool_decide (rating = 0) then throw (JsError "rating required") else
  uid <~ match Js.nonempty userId with
         | Some u => ret (Some u)
         | None => getCurrentUserId
         end ;;
  match Js.nonempty uid with
  | None => throw (JsError "user not authenticated")
  | Some uid =>
      try_catch
        (existing <~ select_event_rating uid eventId ;;
         (* if (fetchErr && fetchErr.code && fetchErr.code !== 'PGRST116') { } :
            the block holds comments only *)
         let insert_new :=
           r <~ insert_event_rating uid eventId rating comment ;;
           match error r with
           | Some insertErr => throw (PgError insertErr)
           | None => ret tt
           end in
         _ <~ match data existing with
              | Some existing =>
                  (* existing && existing.id *)
                  if bool_decide (er_id existing ≠ 0%nat) then
                    r <~ update_event_rating (er_id existing) rating comment ;;
                    match error r with
                    | Some updateErr => throw (PgError updateErr)
                    | None => ret tt
                    end
                  else insert_new
              | None => insert_new
              end ;;
         ev <~ select_event eventId ;;
         match error ev with
         | Some eventErr => throw (PgError eventErr)
         | None =>
             match data ev with
             | None => throw (TypeError "Cannot read properties of null (reading 'tags')")
             | Some event =>
                 let tags := tags_to_update (row event) in
                 let delta := computePreferenceDelta rating (Some 1) in
                 _ <~ updateUserPreferences (Some uid) tags delta ;;
                 getEventById (Some eventId)
             end
         end)
        (λ err, _ <~ console_log "addRating error" ;; throw err)
  end
  end
  end.

Definition addToTrip (userId eventId tripId : option string) : M bool :=
  match Js.nonempty eventId with
  | None => throw (JsError "eventId required")
  | Some eventId =>
  uid <~ match Js.nonempty userId with
         | Some u => ret (Some u)
         | None => getCurrentUserId
         end ;;
  match Js.nonempty uid with
  | None => throw (JsError "user not authenticated")
  | Some uid =>
      try_catch
        (let payload :=
           {| tr_user_id := uid; tr_event_id := eventId; tr_trip_id := Js.nonempty tripId |} in
         r <~ insert_user_trip payload ;;
         match error r with
         | Some insertErr => throw (PgError insertErr)
         | None =>
             ev <~ select_event eventId ;;
             let tags :=
               match data ev with
               | Some event => tags_to_update (row event)
               | None => []
               end in
             let delta := Q2Qc 0.75 in
             _ <~ updateUserPreferences (Some uid) tags delta ;;
             ret true
         end)
        (λ err, _ <~ console_log "addToTrip error" ;; throw err)
  end
  end.


Definition getUserPreferences (userId : option string) : M (list PreferenceRow) :=
  uid <~ match Js.nonempty userId with
         | Some u => ret (Some u)
         | None => getCurrentUserId
         end ;;
  match Js.nonempty uid with
  | None => throw (JsError "user not authenticated")
  | Some uid =>
      try_catch
        (r <~ select_preferences uid ;;
         match error r with
         | Some e => throw (PgError e)
         | None => ret (default [] (data r))
         end)
        (λ err, _ <~ console_log "getUserPreferences error" ;; throw err)
  end.

End EventService.

(** ** listingService.ts *)

(** Modelled from the spec: the schema of the [ratings] table is not in
    the sources; the ratings store is unique on (user, target), so the
    upsert replaces the row of that pair. *)
Definition upsert_rating (uid listingId : string) (r : ListingRating) : M (response unit) :=
  remote (λ w, (ok None, set_ratings (<[(uid, listingId) := r]> (ratings w)) w)).

Definition listing_ratings (w : World) (listingId : string) : list Qc :=
  (λ kv, lr_rating kv.2) <$> filter (λ kv, kv.1.2 = listingId) (map_to_list (ratings w)).

(** Modelled from the spec: the stored procedure [calculate_listing_average]
    is not in the sources; it recomputes the arithmetic mean of all
    current rating rows of the listing ([null] when there is none). *)
Definition rpc_calculate_listing_average (listingId : string) : M (response Qc) :=
  remote (λ w,
    let rs := listing_ratings w listingId in
    (ok (match rs with
         | [] => None
         | _ => Some (foldr Qcplus 0 rs / Q2Qc (inject_Z (Z.of_nat (length rs))))
         end), w)).

(** [supabase.functions.invoke('recommendations', { body: { action, ... } })]
    on the action channel.  What the function does with the hint is not
    in the sources: the model lets it change no table of [World], and the
    statements below draw on the reply of the call only. *)
Definition invoke_action (action : string) : M (response Js.value) :=
  remote (λ w, (ok None, w)).

(** [supabase.functions.invoke('recommendations', { body: request })] *)
Definition invoke_recommendations (request : RecommendationRequest) : M (response Js.value) :=
  remote (λ w, (ok (Some (engine w request)), w)).

(** A query on the [listings] table, as the builder calls leave it. *)
Record ListingsQuery := {
  lq_eq_id : option string;
  lq_eq_host_id : option string;
  lq_eq_is_available : bool;
  lq_eq_category : option string;
  lq_gte_price : option Qc;
  lq_lte_price : option Qc;
  lq_contains_amenities : option (list string);
  lq_or_ilike : option string;      (* title, description or city contain the text *)
  lq_range : option (Qc * Qc);
  lq_order_created_at_desc : bool
}.

(** The arguments of the stored procedure [listings_within_radius]. *)
Record RadiusQuery := {
  center_lat : Qc;
  center_lng : Qc;
  radius_km : Qc;
  page_num : Qc;
  page_size : Qc
}.

(** The [listings] table and the stored procedure are no part of
    [World]: what they answer to a query is a parameter of the functions
    that read them. *)
Record ListingsBackend := {
  answer_listings : ListingsQuery → list Js.value;
  answer_within_radius : RadiusQuery → option (list Js.value)
}.

(** [await query] on the [listings] table *)
Definition select_listings (B : ListingsBackend) (q : ListingsQuery)
  : M (response (list Js.value)) :=
  remote (λ w, (ok (Some (answer_listings B q)), w)).

(** [await query.single()] on the [listings] table *)
Definition select_listing (B : ListingsBackend) (q : ListingsQuery) : M (response Js.value) :=
  remote (λ w, (single (answer_listings B q), w)).

(** [supabase.rpc('listings_within_radius', args)] *)
Definition rpc_listings_within_radius (B : ListingsBackend) (args : RadiusQuery)
  : M (response (list Js.value)) :=
  remote (λ w, (ok (answer_within_radius B args), w)).

Module ListingService.

Record RatingInput := {
  in_userId : string;
  in_listingId : string;
  in_rating : Qc;
  in_reviewText : option string;
  in_tripId : option string
}.

Record RatingResult := {
  success : bool;
  newAverage : option Qc
}.

Definition triggerRecommendationUpdate (userId : string) : M unit :=
  try_catch
    (_ <~ invoke_action "user_interaction" ;; ret tt)
    (λ _, console_log "Failed to trigger recommendation update:").

Definition updateListingRating (input : RatingInput) : M RatingResult :=
  try_catch
    (r <~ upsert_rating (in_userId input) (in_listingId input)
            {| lr_rating := in_rating input;
               lr_review_text := in_reviewText input;
               lr_trip_id := in_tripId input |} ;;
     match error r with
     | Some ratingError =>
         _ <~ console_log "Error updating rating:" ;;
         throw (JsError ("Failed to update rating: " +:+ message ratingError))
     | None =>
         avg <~ rpc_calculate_listing_average (in_listingId input) ;;
         _ <~ match error avg with
              | Some _ => console_log "Error calculating average:"
                          (* Continue anyway, the rating was recorded *)
              | None => ret tt
              end ;;
         _ <~ triggerRecommendationUpdate (in_userId input) ;;
         ret {| success := true; newAverage := data avg |}
     end)
    (λ _, _ <~ console_log "Error in updateListingRating:" ;;
          ret {| success := false; newAverage := None |}).

Record PaginationParams := {
  pg_page : option Qc;
  pg_pageSize : option Qc
}.

Record ProximityParams := {
  px_lat : Qc;
  px_lng : Qc;
  px_radiusKm : option Qc
}.

Record FetchParams := {
  fp_pagination : option PaginationParams;
  fp_proximity : option ProximityParams;
  fp_category : option string;
  fp_minPrice : option Qc;
  fp_maxPrice : option Qc;
  fp_amenities : option (list string);
  fp_availability : option (string * string)
}.

Definition fetchListings (B : ListingsBackend) (params : FetchParams) : M (list Js.value) :=
  try_catch
    (let page := Js.or_num (fp_pagination params ≫= pg_page) 1 in
     let pageSize := Js.or_num (fp_pagination params ≫= pg_pageSize) (Q2Qc 20) in
     let start := (page - 1) * pageSize in
     match fp_proximity params with
     | Some proximity =>
         let radiusKm := default (Q2Qc 50) (px_radiusKm proximity) in
         r <~ rpc_listings_within_radius B
                {| center_lat := px_lat proximity; center_lng := px_lng proximity;
                   radius_km := radiusKm; page_num := page; page_size := pageSize |} ;;
         match error r with
         | Some e => throw (PgError e)
         | None => ret (default [] (data r))
         end
     | None =>
         r <~ select_listings B
                {| lq_eq_id := None; lq_eq_host_id := None; lq_eq_is_available := true;
                   lq_eq_category := Js.nonempty (fp_category params);
                   lq_gte_price := fp_minPrice params;
                   lq_lte_price := fp_maxPrice params;
                   lq_contains_amenities :=
                     match fp_amenities params with
                     | Some (a :: rest) => Some (a :: rest)
                     | _ => None
                     end;
                   lq_or_ilike := None;
                   lq_range := Some (start, start + pageSize - 1);
                   lq_order_created_at_desc := true |} ;;
         match error r with
         | Some e =>
             _ <~ console_log "Error fetching listings:" ;;
             throw (JsError ("Failed to fetch listings: " +:+ message e))
         | None => ret (default [] (data r))
         end
     end)
    (λ err, _ <~ console_log "Error in fetchListings:" ;; throw err).

Definition fetchListingById (B : ListingsBackend) (listingId : string)
  : M (option Js.value) :=
  try_catch
    (r <~ select_listing B
            {| lq_eq_id := Some listingId; lq_eq_host_id := None;
               lq_eq_is_available := false; lq_eq_category := None;
               lq_gte_price := None; lq_lte_price := None;
               lq_contains_amenities := None; lq_or_ilike := None;
               lq_range := None; lq_order_created_at_desc := false |} ;;
     match error r with
     | Some e =>
         if bool_decide (code e = "PGRST116") then ret None
         else
           _ <~ console_log "Error fetching listing:" ;;
           throw (JsError ("Failed to fetch listing: " +:+ message e))
     | None => ret (data r)
     end)
    (λ err, _ <~ console_log "Error in fetchListingById:" ;; throw err).

Definition searchListings (B : ListingsBackend) (query : string)
    (params : option PaginationParams) : M (list Js.value) :=
  try_catch
    (let page := Js.or_num (params ≫= pg_page) 1 in
     let pageSize := Js.or_num (params ≫= pg_pageSize) (Q2Qc 20) in
     let start := (page - 1) * pageSize in
     r <~ select_listings B
            {| lq_eq_id := None; lq_eq_host_id := None; lq_eq_is_available := true;
               lq_eq_category := None; lq_gte_price := None; lq_lte_price := None;
               lq_contains_amenities := None; lq_or_ilike := Some query;
               lq_range := Some (start, start + pageSize - 1);
               lq_order_created_at_desc := true |} ;;
     match error r with
     | Some e =>
         _ <~ console_log "Error searching listings:" ;;
         throw (JsError ("Search failed: " +:+ message e))
     | None => ret (default [] (data r))
     end)
    (λ err, _ <~ console_log "Error in searchListings:" ;; throw err).

Definition getListingsByHost (B : ListingsBackend) (hostId : string)
    (pagination : option PaginationParams) : M (list Js.value) :=
  try_catch
    (let page := Js.or_num (pagination ≫= pg_page) 1 in
     let pageSize := Js.or_num (pagination ≫= pg_pageSize) (Q2Qc 20) in
     let start := (page - 1) * pageSize in
     r <~ select_listings B
            {| lq_eq_id := None; lq_eq_host_id := Some hostId; lq_eq_is_available := false;
               lq_eq_category := None; lq_gte_price := None; lq_lte_price := None;
               lq_contains_amenities := None; lq_or_ilike := None;
               lq_range := Some (start, start + pageSize - 1);
               lq_order_created_at_desc := true |} ;;
     match error r with
     | Some e =>
         _ <~ console_log "Error fetching host listings:" ;;
         throw (JsError ("Failed to fetch host listings: " +:+ message e))
     | None => ret (default [] (data r))
     end)
    (λ err, _ <~ console_log "Error in getListingsByHost:" ;; throw err).

End ListingService.

(** ** interactionService.ts *)

(** [from('user_interactions').insert(rows)] *)
Definition insert_interactions (rows : list Interaction) : M (response unit) :=
  remote (λ w, (ok None, set_user_interactions (user_interactions w ++ rows) w)).

(** [from('user_interactions').delete().eq('user_id', userId)] *)
Definition delete_interactions (uid : string) : M (response unit) :=
  remote (λ w,
    (ok None, set_user_interactions (filter (λ i, ia_user_id i ≠ uid) (user_interactions w)) w)).

Module InteractionService.

Definition type_name (t : InteractionType) : string :=
  match t with
  | view => "view" | save => "save" | book => "book"
  | swipe_left => "swipe_left" | swipe_right => "swipe_right"
  | click => "click" | share => "share" | message_ => "message"
  end.

Definition _triggerRecommendationUpdate (userId : string) : M unit :=
  try_catch
    (_ <~ invoke_action "refresh_user" ;; ret tt)
    (λ _, ret tt (* Silent fail *)).

(** The refresh is started and not awaited; it runs here, at the point
    where it is started. *)
Definition _insertInteraction (i : Interaction) : M bool :=
  try_catch
    (r <~ insert_interactions [i] ;;
     match error r with
     | Some _ =>
         _ <~ console_log ("Error tracking " +:+ type_name (ia_interaction_type i) +:+ ":") ;;
         ret false
     | None =>
         _ <~ try_catch (_triggerRecommendationUpdate (ia_user_id i)) (λ _, ret tt) ;;
         ret true
     end)
    (λ _, _ <~ console_log ("Error in _insertInteraction for "
                             +:+ type_name (ia_interaction_type i) +:+ ":") ;;
          ret false).

Definition trackView (userId listingId : string) (propertyId : option string) : M bool :=
  _insertInteraction
    {| ia_user_id := userId; ia_listing_id := listingId; ia_property_id := propertyId;
       ia_interaction_type := view; ia_weight := Q2Qc 1; ia_metadata := None |}.

Definition trackSave (userId listingId : string) (propertyId : option string) : M bool :=
  _insertInteraction
    {| ia_user_id := userId; ia_listing_id := listingId; ia_property_id := propertyId;
       ia_interaction_type := save; ia_weight := Q2Qc 3; ia_metadata := None |}.

Definition trackBooking (userId listingId : string) (propertyId : option string) : M bool :=
  _insertInteraction
    {| ia_user_id := userId; ia_listing_id := listingId; ia_property_id := propertyId;
       ia_interaction_type := book; ia_weight := Q2Qc 10; ia_metadata := None |}.

Definition trackSwipe (userId listingId : string) (direction : SwipeDirection)
    (propertyId : option string) : M bool :=
  let interactionType := match direction with Left => swipe_left | _ => swipe_right end in
  let weight := match direction with Left => Q2Qc (-2) | _ => Q2Qc 1 end in
  _insertInteraction
    {| ia_user_id := userId; ia_listing_id := listingId; ia_property_id := propertyId;
       ia_interaction_type := interactionType; ia_weight := weight; ia_metadata := None |}.

Definition trackClick (userId listingId : string) (propertyId : option string) : M bool :=
  _insertInteraction
    {| ia_user_id := userId; ia_listing_id := listingId; ia_property_id := propertyId;
       ia_interaction_type := click; ia_weight := Q2Qc 2; ia_metadata := None |}.

Definition trackShare (userId listingId : string) (propertyId : option string) : M bool :=
  _insertInteraction
    {| ia_user_id := userId; ia_listing_id := listingId; ia_property_id := propertyId;
       ia_interaction_type := share; ia_weight := Q2Qc 5; ia_metadata := None |}.

Definition trackMessage (userId listingId : string) (propertyId : option string) : M bool :=
  _insertInteraction
    {| ia_user_id := userId; ia_listing_id := listingId; ia_property_id := propertyId;
       ia_interaction_type := message_; ia_weight := Q2Qc 4; ia_metadata := None |}.

(** The rows of a batch carry their own weight. *)
Definition trackBatch (interactions : list Interaction) : M bool :=
  try_catch
    (r <~ insert_interactions interactions ;;
     match error r with
     | Some _ => _ <~ console_log "Error tracking batch interactions:" ;; ret false
     | None => ret true
     end)
    (λ _, _ <~ console_log "Error in trackBatch:" ;; ret false).

Definition clearUserInteractions (userId : string) : M bool :=
  try_catch
    (r <~ delete_interactions userId ;;
     match error r with
     | Some _ => _ <~ console_log "Error clearing user interactions:" ;; ret false
     | None => ret true
     end)
    (λ _, _ <~ console_log "Error in clearUserInteractions:" ;; ret false).

End InteractionService.

(** ** recommendationService.ts *)

Module RecommendationService.

Definition context_name (c : RecommendationContext) : string :=
  match c with
  | fyp => "fyp" | explore => "explore"
  | after_booking => "after_booking" | trip => "trip"
  end.

Definition _callRecommendationFunction (request : RecommendationRequest) : M Js.value :=
  try_catch
    (r <~ invoke_recommendations request ;;
     match error r with
     | Some e => throw (JsError ("Recommendation Edge Function error: " +:+ message e))
     | None =>
         let data := default Js.Null (data r) in
         if negb (Js.truthy data) then
           throw (JsError "No data returned from recommendation service")
         else if negb (Js.isArray (Js.get data "listings")) then
           throw (JsError "Invalid response format: listings must be an array")
         else ret data
     end)
    (λ err, _ <~ console_log ("Error in _callRecommendationFunction for context "
                               +:+ context_name (context request) +:+ ":") ;;
            throw err).

Definition only (loc : option (Qc * Qc)) (seed tripId : option string) : RecommendationParams :=
  {| location := loc; seedListingId := seed; tripId := tripId;
     limit := None; page := None; excludeSeen := None |}.

Definition getForYou (userId : string) : M Js.value :=
  try_catch
    (response <~ _callRecommendationFunction
                   {| context := fyp; userId := userId; params := None |} ;;
     ret (Js.get response "listings"))
    (λ _, _ <~ console_log "Error in getForYou:" ;; ret (Js.Arr [])).

Definition getExplore (userId : string) (loc : option (Qc * Qc)) : M Js.value :=
  try_catch
    (response <~ _callRecommendationFunction
                   {| context := explore; userId := userId;
                      params := (λ l, only (Some l) None None) <$> loc |} ;;
     ret (Js.get response "listings"))
    (λ _, _ <~ console_log "Error in getExplore:" ;; ret (Js.Arr [])).

Definition getAfterBooking (userId seedListingId : string) : M Js.value :=
  try_catch
    (response <~ _callRecommendationFunction
                   {| context := after_booking; userId := userId;
                      params := Some (only None (Some seedListingId) None) |} ;;
     ret (Js.get response "listings"))
    (λ _, _ <~ console_log "Error in getAfterBooking:" ;; ret (Js.Arr [])).

Definition getTripSuggestions (userId tripId : string) : M Js.value :=
  try_catch
    (response <~ _callRecommendationFunction
                   {| context := trip; userId := userId;
                      params := Some (only None None (Some tripId)) |} ;;
     ret (Js.get response "listings"))
    (λ _, _ <~ console_log "Error in getTripSuggestions:" ;; ret (Js.Arr [])).


End RecommendationService.

(** ** Notions the statements use *)

(** No failure is scheduled: every remote call is carried out. *)
Definition reliable (w : World) : Prop := script w = [].

(** The preference score of a (user, tag) pair; a pair without a row
    counts as 0, as [existing?.score ?? 0] reads it. *)
Definition score (w : World) (uid tag : string) : Qc :=
  default 0 (user_preferences w !! (uid, tag)).

(** The rating rows of a (user, event) pair. *)
Definition rating_rows (w : World) (uid eventId : string) : list EventRating :=
  filter (λ r, er_user_id r = uid ∧ er_event_id r = eventId) (event_ratings w).

(** The arithmetic mean of a list of numbers. *)
Definition sum (xs : list Qc) : Qc := foldr Qcplus 0 xs.


(** What one pass of the loop of [updateUserPreferences] does to the row
    of [tag] on a reliable backend. *)
Definition bump (uid : string) (delta : Qc) (w : World) (tag : string) : World :=
  set_user_preferences (<[(uid, tag) := score w uid tag + delta]> (user_preferences w)) w.

(** A computation leaves a component of the world alone. *)
Definition preserves {A B} (f : World → B) (m : M A) : Prop :=
  ∀ w, f (m w).2 = f w.

(** A sequence of single-tag [updateUserPreferences] calls, one per delta. *)
Definition applyDeltas (uid tag : string) (deltas : list Qc) : M unit :=
  for_of deltas (λ d, _ <~ EventService.updateUserPreferences (Some uid) [tag] d ;; ret tt).

(** The row [addRating] writes when it takes the insert branch. *)
Definition new_rating (uid eventId : string) (rating : Qc) (comment : option string)
    (w : World) : EventRating :=
  {| er_id := next_id w; er_user_id := uid; er_event_id := eventId;
     er_rating := rating; er_comment := comment |}.

(** The world after the rating write of [addRating] on a reliable backend. *)
Definition written (uid eventId : string) (rating : Qc) (comment : option string)
    (w : World) : World :=
  let inserted :=
    set_event_ratings (event_ratings w ++ [new_rating uid eventId rating comment w])
      (S (next_id w)) w in
  match rating_rows w uid eventId with
  | [existing] =>
      if bool_decide (er_id existing ≠ 0%nat) then
        set_event_ratings
          ((λ r, if bool_decide (er_id r = er_id existing)
                 then with_rating rating comment r else r) <$> event_ratings w)
          (next_id w) w
      else inserted
  | _ => inserted
  end.

(** The rating table is well keyed: serial ids are positive and no
    (user, event) pair has two rows. *)
Definition well_keyed (w : World) : Prop :=
  next_id w ≠ 0%nat ∧
  Forall (λ r, er_id r ≠ 0%nat) (event_ratings w) ∧
  ∀ uid eventId, (length (rating_rows w uid eventId) ≤ 1)%nat.

(** The serial ids of the rating table are pairwise distinct and below
    the next id the table hands out. *)
Definition ids_serial (w : World) : Prop :=
  NoDup (er_id <$> event_ratings w) ∧
  Forall (λ r, (er_id r < next_id w)%nat) (event_ratings w).

(** Numbers on which the arithmetic of IEEE doubles is exact: integers
    whose absolute values add up to at most 2^53.  Every sum of some of
    them is an integer of that range, so the sums of the code and the
    sums over the rationals agree on them. *)
Definition safe_integers (xs : list Qc) : Prop :=
  ∃ zs : list Z, xs = Qc_of_Z <$> zs ∧ (foldr (λ z s, Z.abs z + s) 0 zs ≤ 2 ^ 53)%Z.


(** The fields every [ListingCard] declares without [?]. *)
Definition card_fields : list string :=
  ["id"; "title"; "description"; "imageUrls"; "pricePerNight"; "averageRating";
   "reviewCount"; "location"; "amenities"; "isAvailable"; "hostId"].

(** The weight table as the specification words it (WeightPolicy), the
    kinds spelled as the code spells them ([swipe_left] for swipe-left);
    the code has no such table, the statements below compare the
    literals of the track methods with it. *)
Definition spec_weightOf (kind : string) : option Qc :=
  if bool_decide (kind = "view") then Some (Q2Qc 1)
  else if bool_decide (kind = "click") then Some (Q2Qc 2)
  else if bool_decide (kind = "message") then Some (Q2Qc 4)
  else if bool_decide (kind = "share") then Some (Q2Qc 5)
  else if bool_decide (kind = "save") then Some (Q2Qc 3)
  else if bool_decide (kind = "book") then Some (Q2Qc 10)
  else if bool_decide (kind = "swipe_left") then Some (Q2Qc (-2))
  else if bool_decide (kind = "swipe_right") then Some (Q2Qc 1)
  else None.

(** [m] stores one interaction of the given type and weight and returns
    [true]. *)
Definition records (m : M bool) (w : World) (t : InteractionType) (weight : Qc) : Prop :=
  ∃ i, m w = (Return true, set_user_interactions (user_interactions w ++ [i]) w) ∧
       ia_interaction_type i = t ∧ ia_weight i = weight.

(** ** Sample worlds *)

Definition jazz_night : EventRow :=
  {| ev_id := "e1"; ev_title := "Jazz night";
     ev_tags := Some ["music"]; ev_category := Some "nightlife" |}.

Definition statement_timeout : pgerror :=
  {| code := "57014"; message := "canceling statement due to statement timeout" |}.

(** One event, empty tables otherwise; the engine answers [answer] and
    the backend follows the script [replies]. *)
Definition sample_world (replies : list reply) (answer : Js.value) : World :=
  {| session := Some "u1"; events := [jazz_night]; listing := λ _ rows, rows;
     event_ratings := []; next_id := 1;
     user_preferences := ∅; user_trips := []; ratings := ∅; user_interactions := [];
     engine := λ _, answer; script := replies; console := [] |}.

Definition five_stars_by_u1 : EventRating :=
  {| er_id := 1; er_user_id := "u1"; er_event_id := "e1";
     er_rating := Q2Qc 5; er_comment := None |}.

Definition two_stars_by_u2 : EventRating :=
  {| er_id := 2; er_user_id := "u2"; er_event_id := "e1";
     er_rating := Q2Qc 2; er_comment := None |}.

(** An event with an empty tag list and a category. *)
Definition open_mic : EventRow :=
  {| ev_id := "e2"; ev_title := "Open mic";
     ev_tags := Some []; ev_category := Some "nightlife" |}.

(** [sample_world] on a reliable backend, with [open_mic] as a second
    event. *)
Definition club_world : World :=
  {| session := Some "u1"; events := [jazz_night; open_mic]; listing := λ _ rows, rows;
     event_ratings := []; next_id := 1;
     user_preferences := ∅; user_trips := []; ratings := ∅; user_interactions := [];
     engine := λ _, Js.Null; script := []; console := [] |}.

(** An event with two tags, and a world in which the user has a score of
    5 on the second one. *)
Definition food_fair : EventRow :=
  {| ev_id := "e3"; ev_title := "Food fair";
     ev_tags := Some ["food"; "music"]; ev_category := None |}.

Definition fair_world : World :=
  {| session := Some "u1"; events := [food_fair]; listing := λ _ rows, rows;
     event_ratings := []; next_id := 1;
     user_preferences := {[ ("u1", "music") := Q2Qc 5 ]};
     user_trips := []; ratings := ∅; user_interactions := [];
     engine := λ _, Js.Null; script := []; console := [] |}.

(** A [listings] backend without rows. *)
Definition no_listings : ListingsBackend :=
  {| answer_listings := λ _, []; answer_within_radius := λ _, Some [] |}.

(** ** Remote calls on a reliable backend and under a scheduled reply *)

Lemma remote_reliable {A} (op : World → response A * World) w :
  reliable w → remote op w = (Return (op w).1, (op w).2).
Proof.
  intros H. unfold remote, bind, next_reply. rewrite H. by destruct (op w).
Qed.

Lemma remote_fails {A} (op : World → response A * World) w e rs :
  script w = Fails e :: rs →
  remote op w = (Return {| data := None; error := Some e |}, set_script rs w).
Proof. intros H. unfold remote, bind, next_reply. by rewrite H. Qed.

Lemma remote_rejects {A} (op : World → response A * World) w x rs :
  script w = Rejects x :: rs → remote op w = (Throw x, set_script rs w).
Proof. intros H. unfold remote, bind, next_reply. by rewrite H. Qed.

Lemma remote_fine {A} (op : World → response A * World) w rs :
  script w = Fine :: rs →
  remote op w = (Return (op (set_script rs w)).1, (op (set_script rs w)).2).
Proof.
  intros H. unfold remote, bind, next_reply. rewrite H.
  by destruct (op (set_script rs w)).
Qed.

(** ** Frame lemmas: what a computation cannot touch *)

Section Frame.
Context {B : Type} (f : World → B).
Hypothesis f_script : ∀ rs w, f (set_script rs w) = f w.
Hypothesis f_console : ∀ out w, f (set_console out w) = f w.

Lemma preserves_ret {A} (a : A) : preserves f (ret a).
Proof. done. Qed.

Lemma preserves_throw {A} x : preserves f (@throw A x).
Proof. done. Qed.

Lemma preserves_bind {A C} (m : M A) (k : A → M C) :
  preserves f m → (∀ a, preserves f (k a)) → preserves f (bind m k).
Proof.
  intros Hm Hk w. unfold bind. specialize (Hm w).
  destruct (m w) as [[a|x] w']; cbn in *; [|done].
  by rewrite Hk.
Qed.

Lemma preserves_try_catch {A} (m : M A) (h : exn → M A) :
  preserves f m → (∀ x, preserves f (h x)) → preserves f (try_catch m h).
Proof.
  intros Hm Hh w. unfold try_catch. specialize (Hm w).
  destruct (m w) as [[a|x] w']; cbn in *; [done|].
  by rewrite Hh.
Qed.

Lemma preserves_for_of {A} (xs : list A) (body : A → M unit) :
  (∀ x, preserves f (body x)) → preserves f (for_of xs body).
Proof.
  intros Hb. induction xs as [|x xs IH]; [done|].
  cbn [for_of]. apply preserves_bind; [apply Hb|]. intros _. apply IH.
Qed.

Lemma preserves_console_log msg : preserves f (console_log msg).
Proof. intros w. apply f_console. Qed.

Lemma preserves_remote {A} (op : World → response A * World) :
  (∀ w, f (op w).2 = f w) → preserves f (remote op).
Proof.
  intros Hop w. unfold remote, bind, next_reply.
  destruct (script w) as [|[|e|x] rs]; cbn.
  - specialize (Hop w). by destruct (op w).
  - specialize (Hop (set_script rs w)). destruct (op (set_script rs w)).
    cbn in *. by rewrite Hop.
  - apply f_script.
  - apply f_script.
Qed.
End Frame.

Ltac frame :=
  repeat first
    [ apply preserves_ret
    | apply preserves_throw
    | by apply preserves_console_log
    | by apply preserves_remote
    | apply preserves_for_of; intros ?
    | apply preserves_bind; [| intros ?]
    | apply preserves_try_catch; [| intros ?]
    | match goal with |- preserves _ (match ?x with _ => _ end) => destruct x end ].

(** Under any script of replies, the preference update and the read of
    an event leave the rating table alone, and the notifications leave
    the tables of their callers alone: what was written before them
    stays written. *)
Lemma updateUserPreferences_keeps_event_ratings uid tags δ :
  preserves event_ratings (EventService.updateUserPreferences uid tags δ).
Proof.
  unfold EventService.updateUserPreferences, select_preference, upsert_preference. frame.
Qed.

Lemma getEventById_keeps_event_ratings eventId :
  preserves event_ratings (EventService.getEventById eventId).
Proof. unfold EventService.getEventById, select_event. frame. Qed.

Lemma triggerRecommendationUpdate_keeps_ratings uid :
  preserves ratings (ListingService.triggerRecommendationUpdate uid).
Proof. unfold ListingService.triggerRecommendationUpdate, invoke_action. frame. Qed.

Lemma refresh_keeps_user_interactions uid :
  preserves user_interactions (InteractionService._triggerRecommendationUpdate uid).
Proof. unfold InteractionService._triggerRecommendationUpdate, invoke_action. frame. Qed.

(** ** The event service on a reliable backend *)

Lemma nonempty_some s : s ≠ "" → Js.nonempty (Some s) = Some s.
Proof. by destruct s. Qed.






Lemma getEventById_reliable eventId e w :
  reliable w → eventId ≠ "" → filter (λ e, ev_id e = eventId) (events w) = [e] →
  EventService.getEventById (Some eventId) w
  = (Return (EventService.with_stats (embed w e)), w).
Proof.
  intros H Hne He. unfold EventService.getEventById. rewrite nonempty_some by done.
  unfold try_catch, bind, select_event. rewrite remote_reliable by done.
  rewrite He. reflexivity.
Qed.

Lemma bumps_frame uid δ tags w :
  script (foldl (bump uid δ) w tags) = script w ∧
  events (foldl (bump uid δ) w tags) = events w ∧
  event_ratings (foldl (bump uid δ) w tags) = event_ratings w ∧
  next_id (foldl (bump uid δ) w tags) = next_id w.
Proof.
  revert w. induction tags as [|t ts IH]; intros w; [done|].
  cbn [foldl]. destruct (IH (bump uid δ w t)) as (-> & -> & -> & ->). done.
Qed.

Lemma score_bump uid δ w t uid' t' :
  score (bump uid δ w t) uid' t'
  = if bool_decide ((uid, t) = (uid', t')) then score w uid t + δ else score w uid' t'.
Proof.
  unfold score at 1, bump. cbn [user_preferences set_user_preferences].
  case_bool_decide as E.
  - rewrite <- E. by rewrite lookup_insert_eq.
  - by rewrite lookup_insert_ne.
Qed.

Lemma score_bumps_notin uid δ tags w uid' t' :
  t' ∉ tags → score (foldl (bump uid δ) w tags) uid' t' = score w uid' t'.
Proof.
  revert w. induction tags as [|t ts IH]; intros w Hni; [done|].
  cbn [foldl]. rewrite IH by set_solver. rewrite score_bump.
  rewrite bool_decide_eq_false_2; [done|]. intros [= -> ->]. set_solver.
Qed.

Lemma score_bumps_in uid δ tags w t :
  NoDup tags → t ∈ tags → score (foldl (bump uid δ) w tags) uid t = score w uid t + δ.
Proof.
  revert w. induction tags as [|t0 ts IH]; intros w Hnd Hin; [set_solver|].
  apply NoDup_cons in Hnd as [Hni Hnd]. cbn [foldl].
  destruct (decide (t = t0)) as [->|Hne].
  - rewrite score_bumps_notin by done. rewrite score_bump.
    by rewrite bool_decide_eq_true_2.
  - apply elem_of_cons in Hin as [?|Hin]; [done|].
    rewrite IH by done. rewrite score_bump.
    rewrite bool_decide_eq_false_2; [done|]. congruence.
Qed.

(** On a reliable backend [updateUserPreferences] adds [delta] to the row
    of every tag, one pass of the loop after the other. *)
Lemma updateUserPreferences_reliable uid tags δ w :
  reliable w → uid ≠ "" →
  EventService.updateUserPreferences (Some uid) tags δ w
  = (Return (match tags with [] => Js.Undefined | _ => Js.Bool true end),
     foldl (bump uid δ) w tags).
Proof.
  intros H Hu. unfold EventService.updateUserPreferences.
  rewrite nonempty_some by done.
  destruct tags as [|t0 ts0]; [done|].
  set (tags := t0 :: ts0). clearbody tags.
  unfold try_catch. unfold bind at 1.
  assert (Hloop : ∀ w, reliable w →
    for_of tags (λ tag,
      existing <~ select_preference uid tag ;;
      let currentScore := default 0 (pr_score <$> data existing) in
      let newScore := currentScore + δ in
      let payload := {| pr_user_id := uid; pr_tag := tag; pr_score := newScore |} in
      up <~ upsert_preference payload ;;
      match error up with
      | Some upsertErr => throw (PgError upsertErr)
      | None => ret tt
      end) w = (Return tt, foldl (bump uid δ) w tags)).
  { clear w H. induction tags as [|t ts IH]; intros w H; [done|].
    cbn [for_of foldl]. unfold bind at 1. unfold bind at 1.
    unfold select_preference at 1. rewrite remote_reliable by done. cbn [fst snd].
    unfold bind at 1. unfold upsert_preference at 1. rewrite remote_reliable by done.
    cbn [fst snd error ok ret].
    rewrite IH by done. f_equal. f_equal. unfold bump, score.
    by destruct (user_preferences w !! (uid, t)). }
  by rewrite Hloop.
Qed.

Lemma written_frame uid eventId rating comment w :
  script (written uid eventId rating comment w) = script w ∧
  events (written uid eventId rating comment w) = events w ∧
  user_preferences (written uid eventId rating comment w) = user_preferences w.
Proof.
  unfold written. destruct (rating_rows w uid eventId) as [|ex [|]]; try done.
  by case_bool_decide.
Qed.

(** On a reliable backend [addRating] writes the rating, bumps the tags
    of the event and returns the event with its fresh statistics. *)
Lemma addRating_reliable uid eventId rating comment e w :
  reliable w → uid ≠ "" → eventId ≠ "" → rating ≠ 0 →
  filter (λ e, ev_id e = eventId) (events w) = [e] →
  let w1 := written uid eventId rating comment w in
  let w2 := foldl (bump uid (EventService.computePreferenceDelta rating (Some 1))) w1
              (EventService.tags_to_update e) in
  EventService.addRating (Some uid) (Some eventId) (Some rating) comment w
  = (Return (EventService.with_stats (embed w2 e)), w2).
Proof.
  intros H Hu He Hr Hev w1 w2.
  destruct (written_frame uid eventId rating comment w) as (Hs & Hevs & Hp).
  fold w1 in Hs, Hevs, Hp.
  assert (Htail : ∀ w', w' = w1 →
    (ev <~ select_event eventId ;;
     match error ev with
     | Some eventErr => throw (PgError eventErr)
     | None =>
         match data ev with
         | None => throw (TypeError "Cannot read properties of null (reading 'tags')")
         | Some event =>
             let tags := EventService.tags_to_update (row event) in
             let delta := EventService.computePreferenceDelta rating (Some 1) in
             _ <~ EventService.updateUserPreferences (Some uid) tags delta ;;
             EventService.getEventById (Some eventId)
         end
     end) w' = (Return (EventService.with_stats (embed w2 e)), w2)).
  { intros w' ->. unfold bind at 1. unfold select_event at 1.
    rewrite remote_reliable by (unfold reliable; congruence).
    cbn [fst snd]. rewrite Hevs, Hev. cbn [fmap list_fmap single error data row embed].
    unfold bind at 1.
    rewrite updateUserPreferences_reliable by (done || unfold reliable; congruence).
    fold w2. destruct (bumps_frame uid (EventService.computePreferenceDelta rating (Some 1))
                         (EventService.tags_to_update e) w1) as (Hs2 & He2 & _).
    apply getEventById_reliable; try done.
    - unfold reliable, w2. congruence.
    - unfold w2. by rewrite He2, Hevs. }
  unfold EventService.addRating. rewrite !nonempty_some by done.
  rewrite bool_decide_eq_false_2 by done.
  unfold bind at 1. cbn [ret]. rewrite nonempty_some by done.
  unfold try_catch. unfold bind at 1. unfold select_event_rating at 1.
  rewrite remote_reliable by done. cbn [fst snd].
  change (filter _ (event_ratings w)) with (rating_rows w uid eventId).
  unfold w1, written, new_rating in Htail.
  destruct (rating_rows w uid eventId) as [|ex [|]]; cbn [single data].
  - unfold bind at 1. unfold bind at 1. unfold insert_event_rating at 1.
    rewrite remote_reliable by done. cbn [fst snd error ok ret].
    by rewrite Htail.
  - case_bool_decide.
    + unfold bind at 1. unfold bind at 1. unfold update_event_rating at 1.
      rewrite remote_reliable by done. cbn [fst snd error ok ret].
      by rewrite Htail.
    + unfold bind at 1. unfold bind at 1. unfold insert_event_rating at 1.
      rewrite remote_reliable by done. cbn [fst snd error ok ret].
      by rewrite Htail.
  - unfold bind at 1. unfold bind at 1. unfold insert_event_rating at 1.
    rewrite remote_reliable by done. cbn [fst snd error ok ret].
    by rewrite Htail.
Qed.

(** ** Average rating of an event *)



(** Two rows, five and two stars: the average is 7/2.  No row: [null]. *)
Example avgRating_of_two_rows :
  let w := set_event_ratings [five_stars_by_u1; two_stars_by_u2] 3 (sample_world [] Js.Null) in
  ∃ v, (EventService.getEventById (Some "e1") w).1 = Return v ∧
       EventService.avgRating v = Some (Q2Qc (7 # 2)) ∧ EventService.ratingsCount v = 2%nat.
Proof. eexists. split; [reflexivity|]. split; [|reflexivity]. by apply (bool_decide_unpack _). Qed.

Example avgRating_of_no_row :
  ∃ v, (EventService.getEventById (Some "e1") (sample_world [] Js.Null)).1 = Return v ∧
       EventService.avgRating v = None ∧ EventService.ratingsCount v = 0%nat.
Proof. by eexists. Qed.

(** ** The delta of a rating *)

(** C3. The preference delta of a rating r under weight w is (r - 3) * w:
    0 for three stars, +2 for five, -2 for one (weight 1); and every
    [addRating] call that goes through adds (r - 3) * 1 to the score of
    each tag of the rated event.  The tags of the event are taken once
    each ([NoDup]). *)
Theorem addRating_applies_centered_delta :
  ∀ (w : World) (uid eventId : string) (rating : Qc) (comment : option string)
    (e : EventRow) (tag : string),
    reliable w →
    uid ≠ "" → eventId ≠ "" → rating ≠ 0 →
    filter (λ e, ev_id e = eventId) (events w) = [e] →
    NoDup (EventService.tags_to_update e) →
    tag ∈ EventService.tags_to_update e →
    let out := EventService.addRating (Some uid) (Some eventId) (Some rating) comment w in
    (∀ r k, EventService.computePreferenceDelta r (Some k) = (r - Q2Qc 3) * k) ∧
    (∀ r, EventService.computePreferenceDelta r None = (r - Q2Qc 3) * 1) ∧
    EventService.computePreferenceDelta (Q2Qc 3) None = 0 ∧
    EventService.computePreferenceDelta (Q2Qc 5) None = Q2Qc 2 ∧
    EventService.computePreferenceDelta (Q2Qc 1) None = Q2Qc (-2) ∧
    (∃ v, out.1 = Return v) ∧
    score out.2 uid tag = score w uid tag + (rating - Q2Qc 3) * 1.
Proof.
  intros w uid eventId rating comment e tag Hrel Hu He Hr Hev Hnd Hin out.
  split; [done|]. split; [done|]. split; [by apply (bool_decide_unpack _)|].
  split; [by apply (bool_decide_unpack _)|]. split; [by apply (bool_decide_unpack _)|].
  unfold out. rewrite (addRating_reliable uid eventId rating comment e) by done.
  cbn [fst snd]. split; [by eexists|].
  rewrite score_bumps_in by done. unfold score.
  by destruct (written_frame uid eventId rating comment w) as (_ & _ & ->).
Qed.

Lemma addRating_applies_centered_delta_witness :
  let w := sample_world [] Js.Null in
  let out := EventService.addRating (Some "u1") (Some "e1") (Some (Q2Qc 5)) None w in
  score out.2 "u1" "music" = score w "u1" "music" + (Q2Qc 5 - Q2Qc 3) * 1.
Proof.
  intros w out.
  refine (proj2 (proj2 (proj2 (proj2 (proj2 (proj2
    (addRating_applies_centered_delta w "u1" "e1" (Q2Qc 5) None jazz_night "music"
       _ _ _ _ _ _ _))))))).
  - reflexivity.
  - discriminate.
  - discriminate.
  - by apply (bool_decide_unpack _).
  - reflexivity.
  - by apply (bool_decide_unpack _).
  - by apply (bool_decide_unpack _).
Defined.

(** Two five-star calls for the same pair add 2 each: the ledger
    accumulates per call. *)
Example two_five_star_calls_add_four :
  let twice :=
    _ <~ EventService.addRating (Some "u1") (Some "e1") (Some (Q2Qc 5)) None ;;
    EventService.addRating (Some "u1") (Some "e1") (Some (Q2Qc 5)) None in
  score (twice (sample_world [] Js.Null)).2 "u1" "music" = Q2Qc 4.
Proof. by apply (bool_decide_unpack _). Qed.

(** ** Additive preference updates *)

Lemma sum_Permutation (ds ds' : list Qc) : ds ≡ₚ ds' → sum ds = sum ds'.
Proof.
  induction 1 as [|x l l' _ IH|x y l|l l' l'' _ IH1 _ IH2];
    unfold sum in *; cbn [foldr].
  - done.
  - by rewrite IH.
  - ring.
  - congruence.
Qed.

(** On a reliable backend a sequence of single-tag calls leaves the prior
    score plus the sum of the deltas, and touches no other row. *)
Lemma applyDeltas_reliable uid tag ds w :
  reliable w → uid ≠ "" →
  ∃ w', applyDeltas uid tag ds w = (Return tt, w') ∧
        reliable w' ∧
        score w' uid tag = score w uid tag + sum ds ∧
        ∀ uid' tag', (uid', tag') ≠ (uid, tag) → score w' uid' tag' = score w uid' tag'.
Proof.
  intros Hrel Hu. revert w Hrel. induction ds as [|d ds IH]; intros w Hrel.
  - exists w. split; [done|]. split; [done|]. split; [|done].
    unfold sum. cbn [foldr]. by rewrite Qcplus_0_r.
  - destruct (IH (bump uid d w tag)) as (w' & Hrun & Hrel' & Hs & Ho); [done|].
    exists w'. split; [|split; [done|split]].
    + unfold applyDeltas in *. cbn [for_of]. unfold bind at 1. unfold bind at 1.
      by rewrite updateUserPreferences_reliable.
    + rewrite Hs, score_bump, bool_decide_eq_true_2 by done.
      unfold sum. cbn [foldr]. ring.
    + intros uid' tag' Hne. rewrite Ho, score_bump by done.
      rewrite bool_decide_eq_false_2; [done|]. congruence.
Qed.

(** On a reliable backend the final score does not depend on the order
    of the calls. *)
Lemma applyDeltas_any_order uid tag ds ds' w :
  reliable w → uid ≠ "" → ds ≡ₚ ds' →
  score (applyDeltas uid tag ds w).2 uid tag = score (applyDeltas uid tag ds' w).2 uid tag.
Proof.
  intros Hrel Hu Hp.
  destruct (applyDeltas_reliable uid tag ds w Hrel Hu) as (w1 & E1 & _ & S1 & _).
  destruct (applyDeltas_reliable uid tag ds' w Hrel Hu) as (w2 & E2 & _ & S2 & _).
  rewrite E1, E2. cbn [snd]. by rewrite S1, S2, (sum_Permutation _ _ Hp).
Qed.

(** C1 (claim: after any sequence of applyDelta calls the score of the
    key is the prior score plus the sum of the deltas).  The read of the
    current row is answered with an error other than "no rows": the call
    goes on with a current score of 0, returns [true], and the stored
    score is the delta alone, the prior score 5 is gone. *)
Theorem updateUserPreferences_read_error_drops_prior_score :
  let w := set_user_preferences {[("u1", "music") := Q2Qc 5]}
             (sample_world [Fails statement_timeout] Js.Null) in
  let out := EventService.updateUserPreferences (Some "u1") ["music"] (Q2Qc 2) w in
  score w "u1" "music" = Q2Qc 5 ∧
  out.1 = Return (Js.Bool true) ∧
  score out.2 "u1" "music" = Q2Qc 2 ∧
  score out.2 "u1" "music" ≠ score w "u1" "music" + sum [Q2Qc 2].
Proof.
  repeat split; try reflexivity. by apply (bool_decide_unpack _).
Qed.

(** The read and the write of one pass of the loop are two remote calls.
    When the passes of two calls interleave, both reading before either
    writes, the later write overwrites the earlier one: of the deltas 2
    and 3 only 3 is left on top of the prior score 5. *)
Example interleaved_passes_lose_a_delta :
  let w := set_user_preferences {[("u1", "music") := Q2Qc 5]} (sample_world [] Js.Null) in
  let write existing delta :=
    upsert_preference
      {| pr_user_id := "u1"; pr_tag := "music";
         pr_score := default 0 (pr_score <$> data existing) + delta |} in
  let race :=
    a <~ select_preference "u1" "music" ;;
    b <~ select_preference "u1" "music" ;;
    _ <~ write a (Q2Qc 2) ;;
    write b (Q2Qc 3) in
  score (race w).2 "u1" "music" = Q2Qc 8.
Proof. by apply (bool_decide_unpack _). Qed.

(** ** One rating row per (user, event) *)

Lemma rating_rows_update u e id rating comment (rows : list EventRating) :
  filter (λ r, er_user_id r = u ∧ er_event_id r = e)
    ((λ r, if bool_decide (er_id r = id) then with_rating rating comment r else r) <$> rows)
  = (λ r, if bool_decide (er_id r = id) then with_rating rating comment r else r)
      <$> filter (λ r, er_user_id r = u ∧ er_event_id r = e) rows.
Proof.
  induction rows as [|r rows IH]; [done|].
  cbn [fmap list_fmap]. rewrite !filter_cons. 
  case_bool_decide; cbn [with_rating er_user_id er_event_id];
    case_decide; cbn [fmap list_fmap]; rewrite ?bool_decide_eq_true_2 by done;
    rewrite ?bool_decide_eq_false_2 by done; by rewrite <- IH.
Qed.

Lemma written_rows uid eventId rating comment w :
  well_keyed w →
  (rating_rows w uid eventId = [] ∧
   event_ratings (written uid eventId rating comment w)
   = event_ratings w ++ [new_rating uid eventId rating comment w] ∧
   next_id (written uid eventId rating comment w) = S (next_id w)) ∨
  (∃ ex, rating_rows w uid eventId = [ex] ∧
   event_ratings (written uid eventId rating comment w)
   = (λ r, if bool_decide (er_id r = er_id ex) then with_rating rating comment r else r)
       <$> event_ratings w ∧
   next_id (written uid eventId rating comment w) = next_id w).
Proof.
  intros (Hn & Hids & Huniq). unfold written.
  specialize (Huniq uid eventId).
  destruct (rating_rows w uid eventId) as [|ex [|ex' rest]] eqn:E.
  - by left.
  - right. exists ex. split; [done|].
    assert (ex ∈ event_ratings w) as Hin.
    { assert (ex ∈ rating_rows w uid eventId) as Hex by (rewrite E; by apply list_elem_of_singleton).
      unfold rating_rows in Hex. by apply list_elem_of_filter in Hex as [_ ?]. }
    rewrite Forall_forall in Hids. rewrite bool_decide_eq_true_2 by by apply Hids.
    done.
  - cbn in Huniq. lia.
Qed.

Lemma written_well_keyed uid eventId rating comment w :
  well_keyed w → well_keyed (written uid eventId rating comment w).
Proof.
  intros Hwk. pose proof Hwk as (Hn & Hids & Huniq).
  destruct (written_rows uid eventId rating comment w Hwk)
    as [(E & Hrows & Hnext)|(ex & E & Hrows & Hnext)];
    unfold well_keyed, rating_rows; rewrite Hrows, Hnext.
  - split; [done|]. split.
    + apply Forall_app. split; [done|]. by apply Forall_singleton.
    + intros u e. rewrite filter_app, length_app. specialize (Huniq u e).
      unfold rating_rows in Huniq, E. rewrite filter_cons, filter_nil.
      case_decide as Hd; cbn [length new_rating er_user_id er_event_id] in *; [|lia].
      destruct Hd as [<- <-]. rewrite E. cbn. lia.
  - split; [done|]. split.
    + apply Forall_fmap. eapply Forall_impl; [exact Hids|].
      intros r Hr. cbn. by case_bool_decide.
    + intros u e. rewrite rating_rows_update, length_fmap. apply Huniq.
Qed.

Lemma written_holds uid eventId rating comment w :
  well_keyed w →
  ∃ r, rating_rows (written uid eventId rating comment w) uid eventId = [r] ∧
       er_rating r = rating ∧ er_comment r = comment.
Proof.
  intros Hwk.
  destruct (written_rows uid eventId rating comment w Hwk)
    as [(E & Hrows & Hnext)|(ex & E & Hrows & Hnext)]; unfold rating_rows in *; rewrite Hrows.
  - exists (new_rating uid eventId rating comment w).
    rewrite filter_app, E, filter_cons, filter_nil. by rewrite decide_True.
  - exists (with_rating rating comment ex).
    rewrite rating_rows_update, E. cbn. by rewrite bool_decide_eq_true_2.
Qed.

Lemma written_in_place uid eventId rating comment w ex :
  well_keyed w → rating_rows w uid eventId = [ex] →
  rating_rows (written uid eventId rating comment w) uid eventId = [with_rating rating comment ex] ∧
  length (event_ratings (written uid eventId rating comment w)) = length (event_ratings w).
Proof.
  intros Hwk E.
  destruct (written_rows uid eventId rating comment w Hwk)
    as [(E' & Hrows & Hnext)|(ex' & E' & Hrows & Hnext)]; [congruence|].
  assert (ex' = ex) as -> by congruence.
  unfold rating_rows in *. rewrite Hrows, rating_rows_update, E, length_fmap.
  cbn. by rewrite bool_decide_eq_true_2.
Qed.

(** On a reliable backend, from a well-keyed table: two calls for the
    same pair leave one row, with the value of the second, and the second
    call did not add a row. *)
Lemma addRating_twice_reliable uid eventId r1 r2 c1 c2 e w :
  reliable w → well_keyed w →
  uid ≠ "" → eventId ≠ "" → r1 ≠ 0 → r2 ≠ 0 →
  filter (λ e, ev_id e = eventId) (events w) = [e] →
  let w1 := (EventService.addRating (Some uid) (Some eventId) (Some r1) c1 w).2 in
  let w2 := (EventService.addRating (Some uid) (Some eventId) (Some r2) c2 w1).2 in
  well_keyed w2 ∧
  (∃ r, rating_rows w2 uid eventId = [r] ∧ er_rating r = r2 ∧ er_comment r = c2) ∧
  length (event_ratings w2) = length (event_ratings w1).
Proof.
  intros Hrel Hwk Hu He Hr1 Hr2 Hev w1 w2.
  unfold w2, w1.
  rewrite (addRating_reliable uid eventId r1 c1 e) by done. cbn [snd].
  set (wa := written uid eventId r1 c1 w).
  set (wb := foldl _ wa _).
  destruct (written_frame uid eventId r1 c1 w) as (Hs & Hevs & _). fold wa in Hs, Hevs.
  destruct (bumps_frame uid (EventService.computePreferenceDelta r1 (Some 1)) (EventService.tags_to_update e) wa)
    as (Hs' & Hevs' & Hrows' & Hn'). fold wb in Hs', Hevs', Hrows', Hn'.
  assert (well_keyed wb) as Hwkb.
  { pose proof (written_well_keyed uid eventId r1 c1 w Hwk) as Hw. fold wa in Hw.
    unfold well_keyed, rating_rows in *. by rewrite Hrows', Hn'. }
  assert (reliable wb) as Hrelb by (unfold reliable in *; congruence).
  assert (filter (λ e, ev_id e = eventId) (events wb) = [e]) as Hevb by congruence.
  rewrite (addRating_reliable uid eventId r2 c2 e) by done. cbn [snd].
  set (wc := written uid eventId r2 c2 wb).
  set (wd := foldl _ wc _).
  destruct (bumps_frame uid (EventService.computePreferenceDelta r2 (Some 1)) (EventService.tags_to_update e) wc)
    as (_ & _ & Hrows'' & Hn''). fold wd in Hrows'', Hn''.
  destruct (written_holds uid eventId r1 c1 w Hwk) as (ra & Hra & _). fold wa in Hra.
  assert (rating_rows wb uid eventId = [ra]) as Hrb
    by (unfold rating_rows in *; by rewrite Hrows').
  destruct (written_in_place uid eventId r2 c2 wb ra Hwkb Hrb) as [Hin Hlen]. fold wc in Hin, Hlen.
  split; [|split].
  - pose proof (written_well_keyed uid eventId r2 c2 wb Hwkb) as Hw. fold wc in Hw.
    unfold well_keyed, rating_rows in *. by rewrite Hrows'', Hn''.
  - exists (with_rating r2 c2 ra). unfold rating_rows in *. by rewrite Hrows''.
  - by rewrite Hrows''.
Qed.

Lemma addRating_read_error_world_well_keyed :
  well_keyed (set_script [Fails statement_timeout]
                (set_event_ratings [five_stars_by_u1] 2 (sample_world [] Js.Null))).
Proof.
  split; [done|]. split; [by apply Forall_singleton|].
  intros u e. unfold rating_rows. cbn [event_ratings set_script set_event_ratings].
  rewrite filter_cons, filter_nil. case_decide; cbn; lia.
Qed.

(** C2 (claim: after any sequence of rate calls a (user, target) pair has
    at most one rating row, the second call updating in place).  The
    table holds the five-star row of (u1, e1); the read of the existing
    row is answered with an error other than "no rows": the call takes
    the insert branch, returns, and the pair has two rows. *)
Theorem addRating_read_error_inserts_duplicate :
  let w := set_script [Fails statement_timeout]
             (set_event_ratings [five_stars_by_u1] 2 (sample_world [] Js.Null)) in
  let out := EventService.addRating (Some "u1") (Some "e1") (Some (Q2Qc 2)) None w in
  well_keyed w ∧
  rating_rows w "u1" "e1" = [five_stars_by_u1] ∧
  (∃ v, out.1 = Return v) ∧
  rating_rows out.2 "u1" "e1"
  = [five_stars_by_u1;
     {| er_id := 2; er_user_id := "u1"; er_event_id := "e1";
        er_rating := Q2Qc 2; er_comment := None |}].
Proof.
  split; [apply addRating_read_error_world_well_keyed|].
  split; [reflexivity|]. split; [by eexists|reflexivity].
Qed.

(** ** Validation of the rating *)

Lemma written_persists uid eventId rating comment w :
  ∃ r, r ∈ event_ratings (written uid eventId rating comment w) ∧
       er_user_id r = uid ∧ er_event_id r = eventId ∧ er_rating r = rating.
Proof.
  assert (∃ r, r ∈ event_ratings w ++ [new_rating uid eventId rating comment w] ∧
               er_user_id r = uid ∧ er_event_id r = eventId ∧ er_rating r = rating) as Hnew.
  { exists (new_rating uid eventId rating comment w). split; [|done].
    apply elem_of_app. right. by apply list_elem_of_singleton. }
  unfold written. destruct (rating_rows w uid eventId) as [|ex [|]] eqn:E; try exact Hnew.
  case_bool_decide; [|exact Hnew].
  assert (ex ∈ rating_rows w uid eventId) as Hex by (rewrite E; by apply list_elem_of_singleton).
  unfold rating_rows in Hex. apply list_elem_of_filter in Hex as [[Hu He] Hin].
  exists (with_rating rating comment ex). split; [|done].
  cbn [event_ratings set_event_ratings]. apply list_elem_of_fmap.
  exists ex. by rewrite bool_decide_eq_true_2.
Qed.

(** C4, as the code has it.  The only check on the rating is [!rating]: a
    missing rating or 0 throws "rating required" before any remote call
    and nothing is written; every other number passes, whether or not it
    is an integer in [1,5], and on a reliable backend the call returns
    with that value in the rating table. *)
Theorem addRating_rejects_only_missing_or_zero :
  ∀ (w : World) (userId comment : option string) (uid eventId : string)
    (rating : Qc) (e : EventRow),
    eventId ≠ "" → uid ≠ "" → rating ≠ 0 →
    reliable w →
    filter (λ e, ev_id e = eventId) (events w) = [e] →
    EventService.addRating userId (Some eventId) None comment w
      = (Throw (JsError "rating required"), w) ∧
    EventService.addRating userId (Some eventId) (Some 0) comment w
      = (Throw (JsError "rating required"), w) ∧
    ∃ v r,
      let out := EventService.addRating (Some uid) (Some eventId) (Some rating) comment w in
      out.1 = Return v ∧
      r ∈ event_ratings out.2 ∧
      er_user_id r = uid ∧ er_event_id r = eventId ∧ er_rating r = rating.
Proof.
  intros w userId comment uid eventId rating e He Hu Hr Hrel Hev.
  split; [|split].
  - unfold EventService.addRating. by rewrite nonempty_some.
  - unfold EventService.addRating. by rewrite nonempty_some.
  - destruct (written_persists uid eventId rating comment w) as (r & Hin & Hfacts).
    eexists _, r. cbn zeta.
    rewrite (addRating_reliable uid eventId rating comment e) by done.
    cbn [fst snd]. split; [done|]. split; [|done].
    by destruct (bumps_frame uid (EventService.computePreferenceDelta rating (Some 1))
                   (EventService.tags_to_update e)
                   (written uid eventId rating comment w)) as (_ & _ & -> & _).
Qed.

Lemma addRating_rejects_only_missing_or_zero_witness :
  EventService.addRating (Some "u1") (Some "e1") (Some 0) None (sample_world [] Js.Null)
  = (Throw (JsError "rating required"), sample_world [] Js.Null).
Proof.
  refine (proj1 (proj2
    (addRating_rejects_only_missing_or_zero (sample_world [] Js.Null) (Some "u1") None
       "u1" "e1" (Q2Qc 7) jazz_night _ _ _ _ _))).
  - discriminate.
  - discriminate.
  - by apply (bool_decide_unpack _).
  - reflexivity.
  - reflexivity.
Defined.

(** C4, counterexample: six stars and two and a half stars are not
    rejected; the calls return and the values are in the table. *)
Lemma addRating_accepts_out_of_range :
  let six := EventService.addRating (Some "u1") (Some "e1") (Some (Q2Qc 6)) None
               (sample_world [] Js.Null) in
  let half := EventService.addRating (Some "u1") (Some "e1") (Some (Q2Qc 2.5)) None
                (sample_world [] Js.Null) in
  (∃ v, six.1 = Return v) ∧ er_rating <$> event_ratings six.2 = [Q2Qc 6] ∧
  (∃ v, half.1 = Return v) ∧ er_rating <$> event_ratings half.2 = [Q2Qc 2.5].
Proof.
  split; [by eexists|]. split; [reflexivity|]. split; [by eexists|reflexivity].
Qed.

(** ** The gateway: shape of the response *)

Lemma callRecommendationFunction_answered request w :
  reliable w →
  let answer := engine w request in
  let logged :=
    set_console (console w ++ ["Error in _callRecommendationFunction for context "
                                +:+ RecommendationService.context_name (context request)
                                +:+ ":"]) w in
  RecommendationService._callRecommendationFunction request w
  = if negb (Js.truthy answer) then
      (Throw (JsError "No data returned from recommendation service"), logged)
    else if negb (Js.isArray (Js.get answer "listings")) then
      (Throw (JsError "Invalid response format: listings must be an array"), logged)
    else (Return answer, w).
Proof.
  intros Hrel answer logged. unfold RecommendationService._callRecommendationFunction.
  unfold try_catch, bind at 1. unfold invoke_recommendations.
  rewrite remote_reliable by done. cbn [fst snd error data ok from_option id].
  fold answer. destruct (Js.truthy answer); [|done].
  cbn [negb]. by destruct (Js.isArray (Js.get answer "listings")).
Qed.

(** C5. When the engine answers and the [listings] field of its response
    is not an array (missing, null, an object, a string, a number), the
    gateway call throws "Invalid response format: listings must be an
    array" and returns no cards; when the field is an array the call
    returns the response, and the feed built on it returns that array. *)
Theorem gateway_requires_listings_array :
  ∀ (w : World) (request : RecommendationRequest) (uid : string),
    reliable w →
    Js.truthy (engine w request) = true →
    let answer := engine w request in
    let out := RecommendationService._callRecommendationFunction request w in
    (Js.isArray (Js.get answer "listings") = false →
       out.1 = Throw (JsError "Invalid response format: listings must be an array")) ∧
    (∀ cards, Js.get answer "listings" = Js.Arr cards →
       out = (Return answer, w) ∧
       (request = {| context := fyp; userId := uid; params := None |} →
        RecommendationService.getForYou uid w = (Return (Js.Arr cards), w))).
Proof.
  intros w request uid Hrel Htr answer out. unfold out.
  rewrite callRecommendationFunction_answered by done.
  fold answer in Htr |- *. rewrite Htr. cbn [negb]. split.
  - by intros ->.
  - intros cards Hc. rewrite Hc. cbn [Js.isArray negb]. split; [done|].
    intros ->. unfold RecommendationService.getForYou, try_catch, bind.
    rewrite callRecommendationFunction_answered by done.
    fold answer. rewrite Htr, Hc. cbn [negb Js.isArray ret]. by rewrite Hc.
Qed.

(** The feeds catch what the gateway call throws and fall back to an
    empty list. *)
Example getForYou_falls_back_to_empty_list :
  (RecommendationService.getForYou "u1"
     (sample_world [] (Js.Obj [("listings", Js.Str "none")]))).1
  = Return (Js.Arr []).
Proof. reflexivity. Qed.

Lemma gateway_requires_listings_array_witness :
  let w := sample_world [] (Js.Obj [("listings", Js.Str "none")]) in
  (RecommendationService._callRecommendationFunction
     {| context := fyp; userId := "u1"; params := None |} w).1
  = Throw (JsError "Invalid response format: listings must be an array").
Proof.
  intros w.
  refine (proj1 (gateway_requires_listings_array w
                   {| context := fyp; userId := "u1"; params := None |} "u1" _ _) _);
    reflexivity.
Defined.

(** ** Failures of the rating write *)

Lemma addRating_write_failure w uid eventId rating comment first e rs :
  uid ≠ "" → eventId ≠ "" → rating ≠ 0 →
  (∀ x, first ≠ Rejects x) →
  EventService.addRating (Some uid) (Some eventId) (Some rating) comment
    (set_script (first :: Fails e :: rs) w)
  = (Throw (PgError e), set_console (console w ++ ["addRating error"]) (set_script rs w)).
Proof.
  intros Hu He Hr Hfirst. unfold EventService.addRating.
  rewrite !nonempty_some by done. rewrite bool_decide_eq_false_2 by done.
  unfold bind at 1. cbn [ret]. rewrite nonempty_some by done.
  unfold try_catch. unfold bind at 1. unfold select_event_rating at 1.
  destruct first as [|e0|x]; [| |by destruct (Hfirst x)].
  - erewrite remote_fine by reflexivity. cbn [fst snd].
    destruct (filter _ _) as [|ex [|]]; cbn [single data].
    + unfold bind at 1. unfold bind at 1. unfold insert_event_rating at 1.
      by erewrite remote_fails by reflexivity.
    + case_bool_decide.
      * unfold bind at 1. unfold bind at 1. unfold update_event_rating at 1.
        by erewrite remote_fails by reflexivity.
      * unfold bind at 1. unfold bind at 1. unfold insert_event_rating at 1.
        by erewrite remote_fails by reflexivity.
    + unfold bind at 1. unfold bind at 1. unfold insert_event_rating at 1.
      by erewrite remote_fails by reflexivity.
  - erewrite remote_fails by reflexivity. cbn [data].
    unfold bind at 1. unfold bind at 1. unfold insert_event_rating at 1.
    by erewrite remote_fails by reflexivity.
Qed.

Lemma updateListingRating_write_failure w input e rs :
  ListingService.updateListingRating input (set_script (Fails e :: rs) w)
  = (Return {| ListingService.success := false; ListingService.newAverage := None |},
     set_console (console w ++ ["Error updating rating:"; "Error in updateListingRating:"])
       (set_script rs w)).
Proof.
  unfold ListingService.updateListingRating, try_catch. unfold bind at 1. unfold upsert_rating.
  erewrite remote_fails by reflexivity. cbn. by rewrite <- app_assoc.
Qed.

(** C7, as the code has it.  When the backend answers the rating write
    with an error, [addRating] logs and throws that error to the caller
    and the rating table is as before; [updateListingRating] logs, does
    not throw, and resolves to [{ success: false }] without the error. *)
Theorem rating_write_failure_thrown_or_reported :
  ∀ (w : World) (uid eventId : string) (rating : Qc) (comment : option string)
    (input : ListingService.RatingInput) (first : reply) (e : pgerror) (rs : list reply),
    uid ≠ "" → eventId ≠ "" → rating ≠ 0 →
    (∀ x, first ≠ Rejects x) →
    let thrown :=
      EventService.addRating (Some uid) (Some eventId) (Some rating) comment
        (set_script (first :: Fails e :: rs) w) in
    let reported :=
      ListingService.updateListingRating input (set_script (Fails e :: rs) w) in
    thrown.1 = Throw (PgError e) ∧
    event_ratings thrown.2 = event_ratings w ∧
    console thrown.2 = console w ++ ["addRating error"] ∧
    reported.1 = Return {| ListingService.success := false;
                           ListingService.newAverage := None |} ∧
    ratings reported.2 = ratings w ∧
    console reported.2
    = console w ++ ["Error updating rating:"; "Error in updateListingRating:"].
Proof.
  intros w uid eventId rating comment input first e rs Hu He Hr Hfirst thrown reported.
  unfold thrown, reported.
  rewrite addRating_write_failure by done.
  by rewrite updateListingRating_write_failure.
Qed.

Lemma rating_write_failure_thrown_or_reported_witness :
  (EventService.addRating (Some "u1") (Some "e1") (Some (Q2Qc 4)) None
     (set_script [Fine; Fails statement_timeout] (sample_world [] Js.Null))).1
  = Throw (PgError statement_timeout).
Proof.
  refine (proj1 (rating_write_failure_thrown_or_reported (sample_world [] Js.Null)
    "u1" "e1" (Q2Qc 4) None
    {| ListingService.in_userId := "u1"; ListingService.in_listingId := "l1";
       ListingService.in_rating := Q2Qc 4; ListingService.in_reviewText := None;
       ListingService.in_tripId := None |}
    Fine statement_timeout [] _ _ _ _)).
  - discriminate.
  - discriminate.
  - by apply (bool_decide_unpack _).
  - discriminate.
Defined.

(** C7, counterexample: the upsert of [updateListingRating] fails at the
    storage layer and the call does not throw: it returns a value. *)
Lemma updateListingRating_write_failure_not_thrown :
  (ListingService.updateListingRating
     {| ListingService.in_userId := "u1"; ListingService.in_listingId := "l1";
        ListingService.in_rating := Q2Qc 4; ListingService.in_reviewText := None;
        ListingService.in_tripId := None |}
     (sample_world [Fails statement_timeout] Js.Null)).1
  = Return {| ListingService.success := false; ListingService.newAverage := None |}.
Proof. reflexivity. Qed.

(** ** Failures of the best-effort path *)






Lemma triggerRecommendationUpdate_swallows uid w :
  ListingService.triggerRecommendationUpdate uid w
  = match script w with
    | [] => (Return tt, w)
    | Rejects _ :: rs =>
        (Return tt, set_console (console w ++ ["Failed to trigger recommendation update:"])
                      (set_script rs w))
    | _ :: rs => (Return tt, set_script rs w)
    end.
Proof.
  unfold ListingService.triggerRecommendationUpdate, try_catch, bind, invoke_action, remote, bind, next_reply.
  by destruct (script w) as [|[|e|x] rs].
Qed.




Lemma insertInteraction_reliable i w :
  reliable w →
  InteractionService._insertInteraction i w
  = (Return true, set_user_interactions (user_interactions w ++ [i]) w).
Proof.
  intros H. unfold InteractionService._insertInteraction, try_catch. unfold bind at 1. unfold insert_interactions.
  rewrite remote_reliable by done. cbn [fst snd error ok].
  unfold bind at 1. unfold InteractionService._triggerRecommendationUpdate, try_catch, bind, invoke_action.
  by rewrite remote_reliable by done.
Qed.




(** The read of the score of the second tag is answered with an error:
    [addRating] returns, nothing is logged, and the score 5 of the tag
    is replaced by the delta 1. *)
Example addRating_drops_a_ledger_read_error :
  let out := EventService.addRating (Some "u1") (Some "e3") (Some (Q2Qc 4)) None
               (set_script [Fine; Fine; Fine; Fine; Fine; Fails statement_timeout]
                  fair_world) in
  (∃ v, out.1 = Return v) ∧ console out.2 = [] ∧
  score fair_world "u1" "music" = Q2Qc 5 ∧ score out.2 "u1" "music" = Q2Qc 1.
Proof.
  intros out.
  assert (bool_decide (match out.1 with Return _ => True | _ => False end) = true) as H1
    by (vm_compute; reflexivity).
  apply bool_decide_eq_true_1 in H1.
  split; [destruct out.1; [by eexists|done]|].
  split; [by apply (bool_decide_unpack _)|].
  split; by apply (bool_decide_unpack _).
Qed.


(** ** The gateway: the cards *)

Lemma object_with_listings answer cards :
  Js.get answer "listings" = Js.Arr cards → Js.truthy answer = true.
Proof. by destruct answer. Qed.

(** C8, as the code has it.  For a well-formed engine response the four
    feeds return the [listings] array of the response as it came: the
    cards are the raw cards, no field is added or defaulted. *)
Theorem feeds_return_raw_cards :
  ∀ (w : World) (answer : Js.value) (cards : list Js.value)
    (uid seed tripId : string) (loc : option (Qc * Qc)),
    reliable w →
    (∀ request, engine w request = answer) →
    Js.get answer "listings" = Js.Arr cards →
    RecommendationService.getForYou uid w = (Return (Js.Arr cards), w) ∧
    RecommendationService.getExplore uid loc w = (Return (Js.Arr cards), w) ∧
    RecommendationService.getAfterBooking uid seed w = (Return (Js.Arr cards), w) ∧
    RecommendationService.getTripSuggestions uid tripId w = (Return (Js.Arr cards), w).
Proof.
  intros w answer cards uid seed tripId loc Hrel Heng Hcards.
  pose proof (object_with_listings answer cards Hcards) as Htr.
  assert (∀ request,
    RecommendationService._callRecommendationFunction request w = (Return answer, w)) as Hcall.
  { intros request. rewrite callRecommendationFunction_answered by done.
    rewrite Heng, Htr, Hcards. done. }
  repeat split.
  - unfold RecommendationService.getForYou, try_catch, bind. by rewrite Hcall, Hcards.
  - unfold RecommendationService.getExplore, try_catch, bind. by rewrite Hcall, Hcards.
  - unfold RecommendationService.getAfterBooking, try_catch, bind. by rewrite Hcall, Hcards.
  - unfold RecommendationService.getTripSuggestions, try_catch, bind. by rewrite Hcall, Hcards.
Qed.

Lemma feeds_return_raw_cards_witness :
  let raw := Js.Obj [("id", Js.Str "l1")] in
  RecommendationService.getForYou "u1" (sample_world [] (Js.Obj [("listings", Js.Arr [raw])]))
  = (Return (Js.Arr [raw]), sample_world [] (Js.Obj [("listings", Js.Arr [raw])])).
Proof.
  intros raw.
  refine (proj1 (feeds_return_raw_cards
                   (sample_world [] (Js.Obj [("listings", Js.Arr [raw])]))
                   (Js.Obj [("listings", Js.Arr [raw])]) [raw] "u1" "l0" "t0" None _ _ _)).
  - reflexivity.
  - intros request. reflexivity.
  - reflexivity.
Defined.

(** C8, counterexample: the engine answers with one card that has an id
    only; the returned card is that card, and its [title], a field of the
    card shape, is undefined. *)
Lemma getForYou_leaves_missing_field_undefined :
  let raw := Js.Obj [("id", Js.Str "l1")] in
  let out := RecommendationService.getForYou "u1"
               (sample_world [] (Js.Obj [("listings", Js.Arr [raw])])) in
  out.1 = Return (Js.Arr [raw]) ∧
  "title" ∈ card_fields ∧
  Js.get raw "title" = Js.Undefined.
Proof.
  split; [reflexivity|]. split; [|reflexivity].
  unfold card_fields. apply elem_of_cons. right. apply elem_of_cons. by left.
Qed.

(** ** The weights of the interactions *)

(** C9, as the code has it.  Each track method stores its interaction
    with its own literal weight: view 1, click 2, message 4, share 5,
    save 3, book 10, swipe left -2, swipe right 1, the values of the
    table of the specification.  There is no lookup that can fail:
    [trackBatch] stores every row with the weight the caller gives. *)
Theorem track_methods_use_fixed_weights :
  ∀ (w : World) (uid listingId : string) (propertyId : option string)
    (batch : list Interaction),
    reliable w →
    records (InteractionService.trackView uid listingId propertyId) w view (Q2Qc 1) ∧
    records (InteractionService.trackClick uid listingId propertyId) w click (Q2Qc 2) ∧
    records (InteractionService.trackMessage uid listingId propertyId) w message_ (Q2Qc 4) ∧
    records (InteractionService.trackShare uid listingId propertyId) w share (Q2Qc 5) ∧
    records (InteractionService.trackSave uid listingId propertyId) w save (Q2Qc 3) ∧
    records (InteractionService.trackBooking uid listingId propertyId) w book (Q2Qc 10) ∧
    records (InteractionService.trackSwipe uid listingId Left propertyId) w
      swipe_left (Q2Qc (-2)) ∧
    records (InteractionService.trackSwipe uid listingId Right propertyId) w
      swipe_right (Q2Qc 1) ∧
    (∀ t k, spec_weightOf (InteractionService.type_name t) = Some k ↔
            (t, k) ∈ [(view, Q2Qc 1); (click, Q2Qc 2); (message_, Q2Qc 4);
                      (share, Q2Qc 5); (save, Q2Qc 3); (book, Q2Qc 10);
                      (swipe_left, Q2Qc (-2)); (swipe_right, Q2Qc 1)]) ∧
    InteractionService.trackBatch batch w
    = (Return true, set_user_interactions (user_interactions w ++ batch) w).
Proof.
  intros w uid listingId propertyId batch Hrel.
  repeat split;
    try (eexists; split;
         [unfold InteractionService.trackView, InteractionService.trackClick,
            InteractionService.trackMessage, InteractionService.trackShare,
            InteractionService.trackSave, InteractionService.trackBooking,
            InteractionService.trackSwipe;
          by rewrite insertInteraction_reliable
         |done]).
  - intros Hk. destruct t; cbn in Hk; injection Hk as <-; set_solver.
  - intros Hin. repeat (apply elem_of_cons in Hin as [[= -> ->]|Hin]; [done|]).
    by apply elem_of_nil in Hin.
  - unfold InteractionService.trackBatch, try_catch, bind, insert_interactions.
    by rewrite remote_reliable.
Qed.

Lemma track_methods_use_fixed_weights_witness :
  records (InteractionService.trackBooking "u1" "l1" None) (sample_world [] Js.Null)
    book (Q2Qc 10).
Proof.
  refine (proj1 (proj2 (proj2 (proj2 (proj2 (proj2
    (track_methods_use_fixed_weights (sample_world [] Js.Null) "u1" "l1" None [] _))))))).
  reflexivity.
Defined.

(** C9, counterexample: weights that come from no table.  Adding an event
    to a trip is not a kind of the table, and [addToTrip] does not fail:
    it returns [true] and adds its own literal 0.75 to the score of the
    tag.  A batch row of kind view is stored with the weight 7 the caller
    gave, not with the weight 1 of the table. *)
Lemma weights_outside_the_table :
  let added := EventService.addToTrip (Some "u1") (Some "e1") None (sample_world [] Js.Null) in
  let batch :=
    InteractionService.trackBatch
      [{| ia_user_id := "u1"; ia_listing_id := "l1"; ia_property_id := None;
          ia_interaction_type := view; ia_weight := Q2Qc 7; ia_metadata := None |}]
      (sample_world [] Js.Null) in
  spec_weightOf "add_to_trip" = None ∧
  added.1 = Return true ∧
  score added.2 "u1" "music" = Q2Qc 0.75 ∧
  spec_weightOf (InteractionService.type_name view) = Some (Q2Qc 1) ∧
  batch.1 = Return true ∧
  ia_weight <$> user_interactions batch.2 = [Q2Qc 7].
Proof.
  split; [reflexivity|]. split; [reflexivity|].
  split; [by apply (bool_decide_unpack _)|].
  split; [reflexivity|]. split; reflexivity.
Qed.

(** * Further properties of the services *)

(** ** The preference ledger *)

Lemma sum_of_integers (zs : list Z) : sum (Qc_of_Z <$> zs) = Qc_of_Z (foldr Z.add 0%Z zs).
Proof.
  induction zs as [|z zs IH].
  { unfold sum. cbn [fmap list_fmap foldr]. by rewrite Z2Qc_inj_0. }
  cbn [fmap list_fmap foldr sum]. fold (sum (Qc_of_Z <$> zs)).
  by rewrite IH, Z2Qc_inj_add.
Qed.

Lemma abs_sum_le (zs : list Z) :
  (Z.abs (foldr Z.add 0 zs) ≤ foldr (λ z s, Z.abs z + s) 0 zs)%Z.
Proof. induction zs as [|z zs IH]; cbn [foldr]; lia. Qed.

Lemma safe_integers_sum (xs : list Qc) : safe_integers xs → safe_integers [sum xs].
Proof.
  intros (zs & -> & Hle). exists [foldr Z.add 0%Z zs]. split.
  - by rewrite sum_of_integers.
  - pose proof (abs_sum_le zs). cbn [foldr]. lia.
Qed.

(** X1. On a backend that answers every call, for a prior score and
    deltas that are integers whose absolute values add up to at most
    2^53 (where the additions of the code are exact), a sequence of
    [updateUserPreferences] calls on one (user, tag) pair returns and
    leaves the score of the pair at its prior value plus the sum of the
    deltas, whatever the order of the deltas; the score stays an
    integer of that range, and every other pair keeps its score. *)
Theorem updateUserPreferences_adds_up_when_answered :
  ∀ (w : World) (uid tag : string) (ds ds' : list Qc),
    reliable w → uid ≠ "" → ds ≡ₚ ds' →
    safe_integers (score w uid tag :: ds) →
    let out := applyDeltas uid tag ds w in
    let out' := applyDeltas uid tag ds' w in
    out.1 = Return tt ∧
    score out.2 uid tag = score w uid tag + sum ds ∧
    score out'.2 uid tag = score out.2 uid tag ∧
    safe_integers [score out.2 uid tag] ∧
    ∀ uid' tag', (uid', tag') ≠ (uid, tag) → score out.2 uid' tag' = score w uid' tag'.
Proof.
  intros w uid tag ds ds' Hrel Hu Hp Hsafe out out'.
  destruct (applyDeltas_reliable uid tag ds w Hrel Hu) as (w1 & E1 & _ & S1 & O1).
  destruct (applyDeltas_reliable uid tag ds' w Hrel Hu) as (w2 & E2 & _ & S2 & _).
  unfold out, out'. rewrite E1, E2. cbn [fst snd].
  split; [done|]. split; [done|]. split; [|split; [|done]].
  - by rewrite S1, S2, (sum_Permutation _ _ Hp).
  - rewrite S1. by apply safe_integers_sum in Hsafe.
Qed.

Lemma updateUserPreferences_adds_up_when_answered_witness :
  let w := sample_world [] Js.Null in
  score (applyDeltas "u1" "music" [Q2Qc 2; Q2Qc (-1); Q2Qc 4] w).2 "u1" "music"
  = score w "u1" "music" + sum [Q2Qc 2; Q2Qc (-1); Q2Qc 4].
Proof.
  intros w.
  refine (proj1 (proj2 (updateUserPreferences_adds_up_when_answered w "u1" "music"
            [Q2Qc 2; Q2Qc (-1); Q2Qc 4] [Q2Qc (-1); Q2Qc 4; Q2Qc 2] _ _ _ _))).
  - reflexivity.
  - discriminate.
  - apply (Permutation_cons_append [Q2Qc (-1); Q2Qc 4] (Q2Qc 2)).
  - exists [0; 2; -1; 4]%Z. split; by apply (bool_decide_unpack _).
Defined.

Lemma preserves_for_of_in {A B} (f : World → B) (xs : list A) (body : A → M unit) :
  (∀ x, x ∈ xs → preserves f (body x)) → preserves f (for_of xs body).
Proof.
  induction xs as [|x xs IH]; intros Hb; [done|].
  cbn [for_of]. intros w. unfold bind.
  pose proof (Hb x ltac:(by apply elem_of_cons; left) w) as Hx.
  destruct (body x w) as [[[]|e] w']; cbn in *; [|done].
  rewrite IH; [done|]. intros y Hy. apply Hb. apply elem_of_cons. by right.
Qed.

(** X2. Whatever the backend answers, [updateUserPreferences] writes no
    preference row of another user and none of a tag outside its tag
    list, and it leaves the rating and trip tables alone. *)
Theorem updateUserPreferences_touches_only_its_rows :
  ∀ (w : World) (userId : option string) (tags : list string) (δ : Qc)
    (uid' tag' : string),
    userId ≠ Some uid' ∨ tag' ∉ tags →
    let out := EventService.updateUserPreferences userId tags δ w in
    user_preferences out.2 !! (uid', tag') = user_preferences w !! (uid', tag') ∧
    event_ratings out.2 = event_ratings w ∧
    user_trips out.2 = user_trips w.
Proof.
  intros w userId tags δ uid' tag' Hother out. unfold out. clear out.
  split; [|split].
  - revert w. change (preserves (λ w, user_preferences w !! (uid', tag'))
                        (EventService.updateUserPreferences userId tags δ)).
    unfold EventService.updateUserPreferences.
    destruct (Js.nonempty userId) as [uid|] eqn:Eu; [|frame].
    destruct tags as [|t0 ts]; [frame|].
    apply preserves_try_catch; [|intros ?; frame].
    apply preserves_bind; [|intros ?; frame].
    apply preserves_for_of_in. intros tag Hin.
    apply preserves_bind; [|intros existing].
    + unfold select_preference. by apply preserves_remote.
    + apply preserves_bind; [|intros up; destruct (error up); frame].
      unfold upsert_preference. apply preserves_remote; [done|]. intros w0.
      cbn [snd user_preferences set_user_preferences pr_user_id pr_tag].
      apply lookup_insert_ne. intros [= -> ->].
      destruct Hother as [Hu|Ht]; [|done].
      apply Hu. destruct userId as [[|a u]|]; cbn in Eu; congruence.
  - apply updateUserPreferences_keeps_event_ratings.
  - revert w. change (preserves user_trips (EventService.updateUserPreferences userId tags δ)).
    unfold EventService.updateUserPreferences, select_preference, upsert_preference. frame.
Qed.

Lemma updateUserPreferences_touches_only_its_rows_witness :
  let w := sample_world [Fine; Fails statement_timeout] Js.Null in
  let out := EventService.updateUserPreferences (Some "u1") ["music"] (Q2Qc 2) w in
  user_preferences out.2 !! ("u2", "music") = user_preferences w !! ("u2", "music").
Proof.
  intros w out.
  refine (proj1 (updateUserPreferences_touches_only_its_rows w (Some "u1") ["music"]
                   (Q2Qc 2) "u2" "music" _)).
  left. discriminate.
Defined.

(** X3. The loop over the tags is no transaction: when the write of the
    second tag is answered with an error, the call logs and throws that
    error, and the first tag keeps the delta it was given. *)
Theorem updateUserPreferences_is_not_atomic_across_tags :
  ∀ (w : World) (uid t1 t2 : string) (ts : list string) (δ : Qc)
    (e : pgerror) (rs : list reply),
    uid ≠ "" → t1 ≠ t2 →
    let out := EventService.updateUserPreferences (Some uid) (t1 :: t2 :: ts) δ
                 (set_script (Fine :: Fine :: Fine :: Fails e :: rs) w) in
    out.1 = Throw (PgError e) ∧
    score out.2 uid t1 = score w uid t1 + δ ∧
    (∀ t, t ≠ t1 → score out.2 uid t = score w uid t) ∧
    console out.2 = console w ++ ["updateUserPreferences error"].
Proof.
  intros w uid t1 t2 ts δ e rs Hu Hne out.
  assert (out = (Throw (PgError e),
                 set_console (console w ++ ["updateUserPreferences error"])
                   (set_script rs (bump uid δ w t1)))) as ->.
  { unfold out, EventService.updateUserPreferences. rewrite nonempty_some by done.
    unfold try_catch. unfold bind at 1. cbn [for_of].
    unfold bind at 1. unfold bind at 1. unfold select_preference at 1.
    erewrite remote_fine by reflexivity. cbn [fst snd].
    unfold bind at 1. unfold upsert_preference at 1.
    erewrite remote_fine by reflexivity. cbn [fst snd error ok ret].
    unfold bind at 1. unfold bind at 1. unfold select_preference at 1.
    erewrite remote_fine by reflexivity. cbn [fst snd].
    unfold bind at 1. unfold upsert_preference at 1.
    erewrite remote_fails by reflexivity. cbn [error].
    unfold bump, score. cbn.
    by destruct (user_preferences w !! (uid, t1)). }
  cbn [fst snd]. split; [done|]. split; [|split; [|done]].
  - change (score (bump uid δ w t1) uid t1 = score w uid t1 + δ).
    by rewrite score_bump, bool_decide_eq_true_2.
  - intros t Ht. change (score (bump uid δ w t1) uid t = score w uid t).
    rewrite score_bump, bool_decide_eq_false_2; [done|]. congruence.
Qed.

Lemma updateUserPreferences_is_not_atomic_across_tags_witness :
  let out := EventService.updateUserPreferences (Some "u1") ["music"; "jazz"] (Q2Qc 2)
               (set_script [Fine; Fine; Fine; Fails statement_timeout]
                  (sample_world [] Js.Null)) in
  out.1 = Throw (PgError statement_timeout) ∧
  score out.2 "u1" "music" = score (sample_world [] Js.Null) "u1" "music" + Q2Qc 2.
Proof.
  intros out.
  destruct (updateUserPreferences_is_not_atomic_across_tags (sample_world [] Js.Null)
              "u1" "music" "jazz" [] (Q2Qc 2) statement_timeout []) as (H1 & H2 & _).
  - discriminate.
  - discriminate.
  - split; [exact H1|exact H2].
Defined.

(** ** Ratings *)

Lemma same_id_same_row (rows : list EventRating) r r' :
  NoDup (er_id <$> rows) → r ∈ rows → r' ∈ rows → er_id r = er_id r' → r = r'.
Proof.
  induction rows as [|x rows IH]; intros Hnd Hr Hr' Hid; [by apply elem_of_nil in Hr|].
  cbn in Hnd. apply NoDup_cons in Hnd as [Hx Hnd].
  apply elem_of_cons in Hr as [->|Hr]; apply elem_of_cons in Hr' as [->|Hr'].
  - done.
  - exfalso. apply Hx. rewrite Hid. by apply list_elem_of_fmap_2.
  - exfalso. apply Hx. rewrite <- Hid. by apply list_elem_of_fmap_2.
  - by apply IH.
Qed.

Lemma written_ids_serial uid eventId rating comment w :
  well_keyed w → ids_serial w → ids_serial (written uid eventId rating comment w).
Proof.
  intros Hwk [Hnd Hlt].
  destruct (written_rows uid eventId rating comment w Hwk)
    as [(E & Hrows & Hnext)|(ex & E & Hrows & Hnext)];
    unfold ids_serial; rewrite Hrows, Hnext.
  - split.
    + rewrite fmap_app. apply NoDup_app. split; [done|]. split.
      * intros i Hi Hi'. cbn in Hi'. apply list_elem_of_singleton in Hi'.
        apply list_elem_of_fmap in Hi as (r & -> & Hr).
        rewrite Forall_forall in Hlt. specialize (Hlt r Hr). lia.
      * cbn. apply NoDup_singleton.
    + apply Forall_app. split.
      * eapply Forall_impl; [exact Hlt|]. intros r Hr. cbn in *. lia.
      * apply Forall_singleton. cbn. lia.
  - split.
    + rewrite <- list_fmap_compose.
      erewrite list_fmap_ext; [exact Hnd|]. intros i r _. cbn. by case_bool_decide.
    + apply Forall_fmap. eapply Forall_impl; [exact Hlt|].
      intros r Hr. cbn. by case_bool_decide.
Qed.

Lemma written_other_pairs uid eventId rating comment w uid' eventId' :
  well_keyed w → ids_serial w → (uid', eventId') ≠ (uid, eventId) →
  rating_rows (written uid eventId rating comment w) uid' eventId'
  = rating_rows w uid' eventId'.
Proof.
  intros Hwk [Hnd Hlt] Hne.
  destruct (written_rows uid eventId rating comment w Hwk)
    as [(E & Hrows & Hnext)|(ex & E & Hrows & Hnext)];
    unfold rating_rows in *; rewrite Hrows.
  - rewrite filter_app, filter_cons, filter_nil.
    rewrite decide_False; [by rewrite app_nil_r|].
    cbn. intros [-> ->]. done.
  - rewrite rating_rows_update.
    assert (ex ∈ filter (λ r, er_user_id r = uid ∧ er_event_id r = eventId) (event_ratings w))
      as Hex by (rewrite E; by apply list_elem_of_singleton).
    apply list_elem_of_filter in Hex as [[Hexu Hexe] Hexin].
    transitivity (id <$> filter (λ r, er_user_id r = uid' ∧ er_event_id r = eventId')
                           (event_ratings w)); [|apply list_fmap_id].
    apply list_fmap_ext. intros i r Hi. apply list_elem_of_lookup_2 in Hi.
    apply list_elem_of_filter in Hi as [[Hu' He'] Hin].
    case_bool_decide as Hid; [|done]. exfalso.
    assert (r = ex) as -> by by eapply same_id_same_row.
    apply Hne. congruence.
Qed.

Lemma ratings_of_event_update eventId id rating comment (rows : list EventRating) :
  length (filter (λ r, er_event_id r = eventId)
            ((λ r, if bool_decide (er_id r = id) then with_rating rating comment r else r)
               <$> rows))
  = length (filter (λ r, er_event_id r = eventId) rows).
Proof.
  induction rows as [|r rows IH]; [done|].
  cbn [fmap list_fmap]. rewrite !filter_cons.
  assert (er_event_id (if bool_decide (er_id r = id)
                       then with_rating rating comment r else r) = er_event_id r) as ->
    by by case_bool_decide.
  case_decide; cbn [length]; by rewrite <- IH.
Qed.

Lemma ratings_of_event_written uid eventId rating comment w :
  well_keyed w →
  length (ratings_of_event (written uid eventId rating comment w) eventId)
  = (length (ratings_of_event w eventId)
     + match rating_rows w uid eventId with [] => 1 | _ => 0 end)%nat.
Proof.
  intros Hwk.
  destruct (written_rows uid eventId rating comment w Hwk)
    as [(E & Hrows & Hnext)|(ex & E & Hrows & Hnext)];
    unfold ratings_of_event; rewrite Hrows, E.
  - rewrite filter_app, filter_cons, filter_nil, decide_True by done.
    by rewrite length_app.
  - by rewrite Nat.add_0_r, ratings_of_event_update.
Qed.

(** X4. On a backend that answers every call, [addRating] keeps the
    rating table well keyed with distinct serial ids: afterwards the
    (user, event) pair has exactly one row, holding the new rating and
    comment, the rows of every other pair are as before, and the
    returned [ratingsCount] of the event grows by one exactly when the
    pair had no row. *)
Theorem addRating_keeps_one_row_per_pair :
  ∀ (w : World) (uid eventId : string) (rating : Qc) (comment : option string)
    (e : EventRow),
    reliable w → well_keyed w → ids_serial w →
    uid ≠ "" → eventId ≠ "" → rating ≠ 0 →
    filter (λ e, ev_id e = eventId) (events w) = [e] →
    let out := EventService.addRating (Some uid) (Some eventId) (Some rating) comment w in
    (well_keyed out.2 ∧ ids_serial out.2) ∧
    (∃ r, rating_rows out.2 uid eventId = [r] ∧ er_rating r = rating ∧ er_comment r = comment) ∧
    (∀ uid' eventId', (uid', eventId') ≠ (uid, eventId) →
       rating_rows out.2 uid' eventId' = rating_rows w uid' eventId') ∧
    (∃ v, out.1 = Return v ∧
          EventService.ratingsCount v
          = (length (ratings_of_event w eventId)
             + match rating_rows w uid eventId with [] => 1 | _ => 0 end)%nat).
Proof.
  intros w uid eventId rating comment e Hrel Hwk Hser Hu He Hr Hev out.
  unfold out. rewrite (addRating_reliable uid eventId rating comment e) by done.
  cbn [fst snd].
  set (w1 := written uid eventId rating comment w).
  set (w2 := foldl _ w1 _).
  destruct (bumps_frame uid (EventService.computePreferenceDelta rating (Some 1))
              (EventService.tags_to_update e) w1) as (_ & _ & Hrows & Hnext).
  fold w2 in Hrows, Hnext.
  split; [split|split; [|split]].
  - pose proof (written_well_keyed uid eventId rating comment w Hwk) as H. fold w1 in H.
    unfold well_keyed, rating_rows in *. by rewrite Hrows, Hnext.
  - pose proof (written_ids_serial uid eventId rating comment w Hwk Hser) as H. fold w1 in H.
    unfold ids_serial in *. by rewrite Hrows, Hnext.
  - destruct (written_holds uid eventId rating comment w Hwk) as (r & Hr1 & Hr2).
    exists r. fold w1 in Hr1. unfold rating_rows in *. by rewrite Hrows.
  - intros uid' eventId' Hne.
    pose proof (written_other_pairs uid eventId rating comment w uid' eventId' Hwk Hser Hne) as H.
    fold w1 in H. unfold rating_rows in *. by rewrite Hrows.
  - eexists. split; [done|]. cbn [EventService.with_stats EventService.ratingsCount embed
                                  rel_event_ratings ev_id default from_option id].
    pose proof (ratings_of_event_written uid eventId rating comment w Hwk) as H. fold w1 in H.
    assert (ev_id e = eventId) as ->.
    { assert (e ∈ filter (λ e, ev_id e = eventId) (events w)) as Hin
        by (rewrite Hev; by apply list_elem_of_singleton).
      by apply list_elem_of_filter in Hin as [? _]. }
    unfold ratings_of_event in *. by rewrite Hrows.
Qed.

Lemma addRating_keeps_one_row_per_pair_witness :
  let out := EventService.addRating (Some "u1") (Some "e1") (Some (Q2Qc 5)) None
               (sample_world [] Js.Null) in
  ∃ r, rating_rows out.2 "u1" "e1" = [r] ∧ er_rating r = Q2Qc 5 ∧ er_comment r = None.
Proof.
  intros out.
  refine (proj1 (proj2 (addRating_keeps_one_row_per_pair (sample_world [] Js.Null)
                          "u1" "e1" (Q2Qc 5) None jazz_night _ _ _ _ _ _ _))).
  - reflexivity.
  - split; [discriminate|]. split; [constructor|]. intros uid eventId. cbn. lia.
  - split; constructor.
  - discriminate.
  - discriminate.
  - by apply (bool_decide_unpack _).
  - reflexivity.
Defined.

Lemma getCurrentUserId_cases w :
  EventService.getCurrentUserId w
  = match script w with
    | [] => (Return (session w), w)
    | Fine :: rs => (Return (session w), set_script rs w)
    | _ :: rs => (Return None, set_script rs w)
    end.
Proof.
  unfold EventService.getCurrentUserId, try_catch, bind, auth_getUser, remote, bind, next_reply.
  by destruct (script w) as [|[|e|x] rs].
Qed.

(** X5. Called without a user id, [addRating] takes the user of the
    session: on a backend that answers every call it does what the call
    with that id does.  Without a signed-in user, or when the session
    lookup fails, it throws Error('user not authenticated'), writes no
    row and logs nothing. *)
Theorem addRating_resolves_the_user_from_the_session :
  ∀ (w : World) (userId : option string) (eventId u : string) (rating : Qc)
    (comment : option string),
    Js.nonempty userId = None → eventId ≠ "" → rating ≠ 0 →
    (reliable w → session w = Some u → u ≠ "" →
     EventService.addRating userId (Some eventId) (Some rating) comment w
     = EventService.addRating (Some u) (Some eventId) (Some rating) comment w) ∧
    (Js.nonempty (session w) = None ∨ (∃ r rs, script w = r :: rs ∧ r ≠ Fine) →
     let out := EventService.addRating userId (Some eventId) (Some rating) comment w in
     out.1 = Throw (JsError "user not authenticated") ∧
     event_ratings out.2 = event_ratings w ∧
     user_preferences out.2 = user_preferences w ∧
     console out.2 = console w).
Proof.
  intros w userId eventId u rating comment Hno He Hr. split.
  - intros Hrel Hs Hu. unfold EventService.addRating.
    rewrite Hno, !nonempty_some, bool_decide_eq_false_2 by done.
    unfold bind at 1 3. rewrite getCurrentUserId_cases, Hrel, Hs. done.
  - intros Hcase out.
    assert (∃ w', out = (Throw (JsError "user not authenticated"), w') ∧
                  event_ratings w' = event_ratings w ∧
                  user_preferences w' = user_preferences w ∧
                  console w' = console w) as (w' & -> & Hw').
    { unfold out, EventService.addRating.
      rewrite Hno, !nonempty_some, bool_decide_eq_false_2 by done.
      unfold bind at 1. rewrite getCurrentUserId_cases.
      destruct Hcase as [Hs|(r & rs & Hscript & Hr')].
      - destruct (script w) as [|[|e|x] rs]; cbn [fst snd]; rewrite ?Hs; by eexists.
      - rewrite Hscript. destruct r; [done| |]; by eexists. }
    done.
Qed.

Lemma addRating_resolves_the_user_from_the_session_witness :
  EventService.addRating None (Some "e1") (Some (Q2Qc 5)) None (sample_world [] Js.Null)
  = EventService.addRating (Some "u1") (Some "e1") (Some (Q2Qc 5)) None
      (sample_world [] Js.Null).
Proof.
  refine (proj1 (addRating_resolves_the_user_from_the_session (sample_world [] Js.Null)
                   None "e1" "u1" (Q2Qc 5) None _ _ _) _ _ _).
  - reflexivity.
  - discriminate.
  - by apply (bool_decide_unpack _).
  - reflexivity.
  - reflexivity.
  - discriminate.
Defined.

(** X6. The category of an event is the fallback of a missing tag list
    only: rating an event whose tag list is the empty array changes no
    preference score, whatever its category, as does rating an event
    with neither tags nor category; an event without a tag list and
    with a category moves the score of the category by rating - 3. *)
Theorem empty_tag_list_blocks_the_category :
  ∀ (w : World) (uid eventId : string) (rating : Qc) (comment : option string)
    (e : EventRow),
    reliable w → uid ≠ "" → eventId ≠ "" → rating ≠ 0 →
    filter (λ e, ev_id e = eventId) (events w) = [e] →
    let out := EventService.addRating (Some uid) (Some eventId) (Some rating) comment w in
    (∃ v, out.1 = Return v) ∧
    (ev_tags e = Some [] → user_preferences out.2 = user_preferences w) ∧
    (ev_tags e = None → Js.nonempty (ev_category e) = None →
       user_preferences out.2 = user_preferences w) ∧
    (∀ c, ev_tags e = None → Js.nonempty (ev_category e) = Some c →
       score out.2 uid c = score w uid c + (rating - Q2Qc 3) ∧
       ∀ uid' t, (uid', t) ≠ (uid, c) → score out.2 uid' t = score w uid' t).
Proof.
  intros w uid eventId rating comment e Hrel Hu He Hr Hev out.
  unfold out. rewrite (addRating_reliable uid eventId rating comment e) by done.
  cbn [fst snd].
  destruct (written_frame uid eventId rating comment w) as (_ & _ & Hp).
  unfold EventService.tags_to_update.
  split; [by eexists|]. split; [|split].
  - intros ->. done.
  - intros -> ->. done.
  - intros c -> ->. cbn [foldl]. split.
    + rewrite score_bump, bool_decide_eq_true_2 by done.
      unfold score, EventService.computePreferenceDelta. rewrite Hp. cbn. ring.
    + intros uid' t Hne. rewrite score_bump, bool_decide_eq_false_2 by congruence.
      unfold score. by rewrite Hp.
Qed.

Lemma empty_tag_list_blocks_the_category_witness :
  let out := EventService.addRating (Some "u1") (Some "e2") (Some (Q2Qc 5)) None club_world in
  user_preferences out.2 = user_preferences club_world.
Proof.
  intros out.
  refine (proj1 (proj2 (empty_tag_list_blocks_the_category club_world "u1" "e2" (Q2Qc 5)
                          None open_mic _ _ _ _ _)) _).
  - reflexivity.
  - discriminate.
  - discriminate.
  - by apply (bool_decide_unpack _).
  - reflexivity.
  - reflexivity.
Defined.

(** ** Trips *)

Lemma addToTrip_reliable uid eventId tripId w :
  reliable w → uid ≠ "" → eventId ≠ "" →
  let stored :=
    set_user_trips (user_trips w ++ [{| tr_user_id := uid; tr_event_id := eventId;
                                        tr_trip_id := Js.nonempty tripId |}]) w in
  let tags :=
    match filter (λ e, ev_id e = eventId) (events w) with
    | [e] => EventService.tags_to_update e
    | _ => []
    end in
  EventService.addToTrip (Some uid) (Some eventId) tripId w
  = (Return true, foldl (bump uid (Q2Qc 0.75)) stored tags).
Proof.
  intros Hrel Hu He stored tags. unfold EventService.addToTrip.
  rewrite !nonempty_some by done. unfold bind at 1. cbn [ret].
  rewrite nonempty_some by done.
  unfold try_catch. unfold bind at 1. unfold insert_user_trip at 1.
  rewrite remote_reliable by done. cbn [fst snd error ok]. fold stored.
  unfold bind at 1. unfold select_event at 1.
  rewrite remote_reliable by done. cbn [fst snd events set_user_trips].
  unfold bind at 1. unfold tags. change (events stored) with (events w).
  destruct (filter (λ e, ev_id e = eventId) (events w)) as [|e [|e' rest]];
    cbn [fmap list_fmap single data row embed];
    by rewrite updateUserPreferences_reliable.
Qed.

Lemma bumps_keep_user_trips uid δ tags w :
  user_trips (foldl (bump uid δ) w tags) = user_trips w.
Proof.
  revert w. induction tags as [|t ts IH]; intros w; [done|]. cbn [foldl]. by rewrite IH.
Qed.

(** X7. On a backend that answers every call, [addToTrip] returns true,
    appends one trip row and adds 0.75 to the score of every tag of the
    event; it leaves the rating table alone.  It does not look for a
    row of the same (user, event) pair: a second call appends a second
    row and adds 0.75 again. *)
Theorem addToTrip_stores_the_trip_and_bumps_the_tags :
  ∀ (w : World) (uid eventId : string) (tripId : option string) (e : EventRow)
    (tag : string),
    reliable w → uid ≠ "" → eventId ≠ "" →
    filter (λ e, ev_id e = eventId) (events w) = [e] →
    NoDup (EventService.tags_to_update e) →
    tag ∈ EventService.tags_to_update e →
    let row := {| tr_user_id := uid; tr_event_id := eventId;
                  tr_trip_id := Js.nonempty tripId |} in
    let once := EventService.addToTrip (Some uid) (Some eventId) tripId w in
    let twice := EventService.addToTrip (Some uid) (Some eventId) tripId once.2 in
    once.1 = Return true ∧
    user_trips once.2 = user_trips w ++ [row] ∧
    score once.2 uid tag = score w uid tag + Q2Qc 0.75 ∧
    event_ratings once.2 = event_ratings w ∧
    twice.1 = Return true ∧
    user_trips twice.2 = user_trips w ++ [row; row] ∧
    score twice.2 uid tag = score w uid tag + Q2Qc 0.75 + Q2Qc 0.75.
Proof.
  intros w uid eventId tripId e tag Hrel Hu He Hev Hnd Hin row once twice.
  assert (∀ w0, reliable w0 → events w0 = events w →
            let out := EventService.addToTrip (Some uid) (Some eventId) tripId w0 in
            out.1 = Return true ∧ reliable out.2 ∧ events out.2 = events w ∧
            user_trips out.2 = user_trips w0 ++ [row] ∧
            score out.2 uid tag = score w0 uid tag + Q2Qc 0.75 ∧
            event_ratings out.2 = event_ratings w0) as Hstep.
  { intros w0 Hrel0 Hev0 out. unfold out.
    rewrite addToTrip_reliable by done. rewrite Hev0, Hev. cbn [fst snd].
    set (stored := set_user_trips _ w0).
    destruct (bumps_frame uid (Q2Qc 0.75) (EventService.tags_to_update e) stored)
      as (Hs & He' & Hr' & _).
    split; [done|]. split; [unfold reliable in *; by rewrite Hs|].
    split; [by rewrite He'|]. split.
    - by rewrite bumps_keep_user_trips.
    - split; [|by rewrite Hr']. by rewrite score_bumps_in. }
  destruct (Hstep w Hrel eq_refl) as (H1 & Hrel1 & Hev1 & Ht1 & Hs1 & Hr1).
  fold once in H1, Hrel1, Hev1, Ht1, Hs1, Hr1.
  destruct (Hstep once.2 Hrel1 Hev1) as (H2 & _ & _ & Ht2 & Hs2 & _).
  fold twice in H2, Ht2, Hs2.
  repeat split; try done.
  - by rewrite Ht2, Ht1, <- app_assoc.
  - by rewrite Hs2, Hs1.
Qed.

Lemma addToTrip_stores_the_trip_and_bumps_the_tags_witness :
  let row := {| tr_user_id := "u1"; tr_event_id := "e1"; tr_trip_id := None |} in
  let once := EventService.addToTrip (Some "u1") (Some "e1") None (sample_world [] Js.Null) in
  let twice := EventService.addToTrip (Some "u1") (Some "e1") None once.2 in
  user_trips twice.2 = user_trips (sample_world [] Js.Null) ++ [row; row].
Proof.
  intros row once twice.
  refine (proj1 (proj2 (proj2 (proj2 (proj2 (proj2
    (addToTrip_stores_the_trip_and_bumps_the_tags (sample_world [] Js.Null) "u1" "e1" None
       jazz_night "music" _ _ _ _ _ _))))))).
  - reflexivity.
  - discriminate.
  - discriminate.
  - reflexivity.
  - by apply (bool_decide_unpack _).
  - by apply (bool_decide_unpack _).
Defined.

(** X8. [addToTrip] does not need the event to exist: for an unknown
    event, and when the read of the event is answered with an error,
    it returns true with the trip row stored and no preference score
    changed.  When the insert of the trip row is answered with an error
    it logs, throws that error and stores nothing. *)
Theorem addToTrip_edge_cases :
  ∀ (w : World) (uid eventId : string) (tripId : option string)
    (e : pgerror) (rs : list reply),
    uid ≠ "" → eventId ≠ "" →
    let row := {| tr_user_id := uid; tr_event_id := eventId;
                  tr_trip_id := Js.nonempty tripId |} in
    let unknown := EventService.addToTrip (Some uid) (Some eventId) tripId w in
    let unread := EventService.addToTrip (Some uid) (Some eventId) tripId
                    (set_script (Fine :: Fails e :: rs) w) in
    let refused := EventService.addToTrip (Some uid) (Some eventId) tripId
                     (set_script (Fails e :: rs) w) in
    (reliable w → filter (λ e, ev_id e = eventId) (events w) = [] →
       unknown = (Return true, set_user_trips (user_trips w ++ [row]) w)) ∧
    unread = (Return true, set_script rs (set_user_trips (user_trips w ++ [row]) w)) ∧
    refused = (Throw (PgError e),
               set_console (console w ++ ["addToTrip error"]) (set_script rs w)).
Proof.
  intros w uid eventId tripId e rs Hu He row unknown unread refused.
  split; [|split].
  - intros Hrel Hnone. unfold unknown. rewrite addToTrip_reliable by done.
    by rewrite Hnone.
  - unfold unread, EventService.addToTrip.
    rewrite !nonempty_some by done. unfold bind at 1. cbn [ret].
    rewrite nonempty_some by done.
    unfold try_catch. unfold bind at 1. unfold insert_user_trip at 1.
    erewrite remote_fine by reflexivity. cbn [fst snd error ok].
    unfold bind at 1. unfold select_event at 1.
    erewrite remote_fails by reflexivity. cbn [data].
    unfold bind at 1. unfold EventService.updateUserPreferences.
    by rewrite nonempty_some.
  - unfold refused, EventService.addToTrip.
    rewrite !nonempty_some by done. unfold bind at 1. cbn [ret].
    rewrite nonempty_some by done.
    unfold try_catch. unfold bind at 1. unfold insert_user_trip at 1.
    by erewrite remote_fails by reflexivity.
Qed.

Lemma addToTrip_edge_cases_witness :
  EventService.addToTrip (Some "u1") (Some "e9") None (sample_world [] Js.Null)
  = (Return true,
     set_user_trips
       (user_trips (sample_world [] Js.Null)
        ++ [{| tr_user_id := "u1"; tr_event_id := "e9"; tr_trip_id := None |}])
       (sample_world [] Js.Null)).
Proof.
  refine (proj1 (addToTrip_edge_cases (sample_world [] Js.Null) "u1" "e9" None
                   statement_timeout [] _ _) _ _).
  - discriminate.
  - discriminate.
  - reflexivity.
  - reflexivity.
Defined.




(** ** Reading events *)

(** X10. On a backend that answers every call, [getEventById] returns
    the event with its statistics when exactly one row has the id;
    when no row has it (or several have) the PGRST116 error of
    [.single()] is logged and thrown. *)
Theorem getEventById_needs_exactly_one_row :
  ∀ (w : World) (eventId : string),
    reliable w → eventId ≠ "" →
    let rows := filter (λ e, ev_id e = eventId) (events w) in
    let out := EventService.getEventById (Some eventId) w in
    (∀ e, rows = [e] → out = (Return (EventService.with_stats (embed w e)), w)) ∧
    (length rows ≠ 1%nat →
       out = (Throw (PgError PGRST116),
              set_console (console w ++ ["getEventById error"]) w)).
Proof.
  intros w eventId Hrel He rows out. split.
  - intros e Hrows. by apply getEventById_reliable.
  - intros Hlen. unfold out, EventService.getEventById.
    rewrite nonempty_some by done.
    unfold try_catch, bind, select_event. rewrite remote_reliable by done.
    fold rows. by destruct rows as [|e [|e' rest]].
Qed.

Lemma getEventById_needs_exactly_one_row_witness :
  EventService.getEventById (Some "e9") (sample_world [] Js.Null)
  = (Throw (PgError PGRST116),
     set_console (console (sample_world [] Js.Null) ++ ["getEventById error"])
       (sample_world [] Js.Null)).
Proof.
  refine (proj2 (getEventById_needs_exactly_one_row (sample_world [] Js.Null) "e9" _ _) _).
  - reflexivity.
  - discriminate.
  - discriminate.
Defined.

(** X11. [fetchEvents] writes no table, whatever the backend answers.
    An error answer and a rejected call are logged once and thrown to
    the caller as they came.  An empty [tags] array filters nothing: it
    gives the query of a call without [tags]. *)
Theorem fetchEvents_reads_only_and_rethrows :
  ∀ (w : World) (opts : EventService.FetchOptions) (e : pgerror) (x : exn)
    (rs : list reply) (lim off : Z) (orderBy : string),
    let out := EventService.fetchEvents opts w in
    (events out.2 = events w ∧ event_ratings out.2 = event_ratings w ∧
     user_preferences out.2 = user_preferences w) ∧
    EventService.fetchEvents opts (set_script (Fails e :: rs) w)
    = (Throw (PgError e), set_console (console w ++ ["fetchEvents error"]) (set_script rs w)) ∧
    EventService.fetchEvents opts (set_script (Rejects x :: rs) w)
    = (Throw x, set_console (console w ++ ["fetchEvents error"]) (set_script rs w)) ∧
    EventService.fetchEvents
      {| EventService.opt_limit := lim; EventService.opt_offset := off;
         EventService.opt_tags := Some []; EventService.opt_orderBy := orderBy |} w
    = EventService.fetchEvents
        {| EventService.opt_limit := lim; EventService.opt_offset := off;
           EventService.opt_tags := None; EventService.opt_orderBy := orderBy |} w.
Proof.
  intros w opts e x rs lim off orderBy out. split; [|split; [|split]].
  - unfold out. clear out.
    assert (∀ {B} (f : World → B), (∀ rs w, f (set_script rs w) = f w) →
              (∀ o w, f (set_console o w) = f w) →
              preserves f (EventService.fetchEvents opts)) as Hframe.
    { intros B f Hs Hc. unfold EventService.fetchEvents, select_events. cbn zeta. frame. }
    repeat split; by apply Hframe.
  - unfold EventService.fetchEvents, try_catch. cbn zeta. unfold bind at 1. unfold select_events.
    by erewrite remote_fails by reflexivity.
  - unfold EventService.fetchEvents, try_catch. cbn zeta. unfold bind at 1. unfold select_events.
    by erewrite remote_rejects by reflexivity.
  - done.
Qed.








(** ** Reading preferences *)

Lemma getUserPreferences_reliable uid w :
  reliable w → uid ≠ "" →
  EventService.getUserPreferences (Some uid) w
  = (Return ((λ kv, {| pr_user_id := kv.1.1; pr_tag := kv.1.2; pr_score := kv.2 |})
               <$> filter (λ kv, kv.1.1 = uid) (map_to_list (user_preferences w))), w).
Proof.
  intros Hrel Hu. unfold EventService.getUserPreferences.
  rewrite nonempty_some by done. unfold bind at 1. cbn [ret].
  rewrite nonempty_some by done.
  unfold try_catch, bind, select_preferences. by rewrite remote_reliable.
Qed.

Lemma preference_rows_spec (m : gmap (string * string) Qc) uid r :
  r ∈ (λ kv, {| pr_user_id := kv.1.1; pr_tag := kv.1.2; pr_score := kv.2 |})
        <$> filter (λ kv : string * string * Qc, kv.1.1 = uid) (map_to_list m)
  ↔ pr_user_id r = uid ∧ m !! (uid, pr_tag r) = Some (pr_score r).
Proof.
  rewrite list_elem_of_fmap. split.
  - intros ([[u t] s] & -> & Hin). apply list_elem_of_filter in Hin as [Hu Hin].
    cbn in *. subst u. split; [done|]. by apply elem_of_map_to_list.
  - intros [Hu Hl]. exists ((uid, pr_tag r), pr_score r). split.
    + destruct r; cbn in *. by subst.
    + apply list_elem_of_filter. split; [done|]. by apply elem_of_map_to_list.
Qed.

Lemma preference_rows_distinct_tags (m : gmap (string * string) Qc) uid :
  NoDup (pr_tag <$> ((λ kv, {| pr_user_id := kv.1.1; pr_tag := kv.1.2; pr_score := kv.2 |})
        <$> filter (λ kv : string * string * Qc, kv.1.1 = uid) (map_to_list m))).
Proof.
  rewrite <- list_fmap_compose. apply NoDup_fmap_2_strong.
  - intros [[u t] s] [[u' t'] s'] Hin Hin' Heq. cbn in Heq. subst t'.
    apply list_elem_of_filter in Hin as [Hu Hin], Hin' as [Hu' Hin'].
    cbn in *. subst u u'.
    apply elem_of_map_to_list in Hin, Hin'. congruence.
  - apply NoDup_filter, NoDup_map_to_list.
Qed.

Lemma bumps_lookup uid δ tags w t :
  t ∈ tags →
  user_preferences (foldl (bump uid δ) w tags) !! (uid, t)
  = Some (score (foldl (bump uid δ) w tags) uid t).
Proof.
  revert w. induction tags as [|t0 ts IH]; intros w Hin; [by apply elem_of_nil in Hin|].
  cbn [foldl]. destruct (decide (t ∈ ts)) as [Hts|Hts]; [by apply IH|].
  apply elem_of_cons in Hin as [->|Hin]; [|done].
  assert (∀ w0, is_Some (user_preferences w0 !! (uid, t0)) →
                is_Some (user_preferences (foldl (bump uid δ) w0 ts) !! (uid, t0))) as Hkeep.
  { clear. induction ts as [|t1 ts IH]; intros w0 Hs; [done|].
    cbn [foldl]. apply IH. unfold bump. cbn.
    destruct (decide ((uid, t1) = (uid, t0))) as [->|Hne].
    - rewrite lookup_insert_eq. by eexists.
    - by rewrite lookup_insert_ne. }
  destruct (Hkeep (bump uid δ w t0)) as [x Hx].
  { unfold bump. cbn. rewrite lookup_insert_eq. by eexists. }
  unfold score. by rewrite Hx.
Qed.

(** X13. On a backend that answers every call, [getUserPreferences]
    returns exactly the preference rows of the user, one per tag, and
    changes nothing; after [updateUserPreferences] the row of each
    updated tag is in the list with its prior score (0 without a row)
    plus the delta. *)
Theorem getUserPreferences_lists_the_scores_of_the_user :
  ∀ (w : World) (uid tag : string) (tags : list string) (δ : Qc),
    reliable w → uid ≠ "" → NoDup tags → tag ∈ tags →
    let updated := EventService.updateUserPreferences (Some uid) tags δ w in
    let before := EventService.getUserPreferences (Some uid) w in
    let after := EventService.getUserPreferences (Some uid) updated.2 in
    (∃ rows, before = (Return rows, w) ∧
       NoDup (pr_tag <$> rows) ∧
       ∀ r, r ∈ rows ↔ pr_user_id r = uid ∧
                       user_preferences w !! (uid, pr_tag r) = Some (pr_score r)) ∧
    (∃ rows, after.1 = Return rows ∧
       {| pr_user_id := uid; pr_tag := tag; pr_score := score w uid tag + δ |} ∈ rows).
Proof.
  intros w uid tag tags δ Hrel Hu Hnd Hin updated before after. split.
  - unfold before. rewrite getUserPreferences_reliable by done.
    eexists. split; [done|]. split.
    + apply preference_rows_distinct_tags.
    + intros r. apply preference_rows_spec.
  - unfold after, updated. rewrite updateUserPreferences_reliable by done. cbn [snd].
    destruct (bumps_frame uid δ tags w) as (Hs & _).
    rewrite getUserPreferences_reliable by (done || unfold reliable in *; congruence).
    eexists. split; [done|]. apply preference_rows_spec. split; [done|].
    cbn [pr_tag pr_score]. rewrite bumps_lookup by done.
    by rewrite score_bumps_in.
Qed.

Lemma getUserPreferences_lists_the_scores_of_the_user_witness :
  let w := sample_world [] Js.Null in
  let updated := EventService.updateUserPreferences (Some "u1") ["music"] (Q2Qc 2) w in
  ∃ rows, (EventService.getUserPreferences (Some "u1") updated.2).1 = Return rows ∧
          {| pr_user_id := "u1"; pr_tag := "music";
             pr_score := score w "u1" "music" + Q2Qc 2 |} ∈ rows.
Proof.
  intros w updated.
  refine (proj2 (getUserPreferences_lists_the_scores_of_the_user w "u1" "music" ["music"]
                   (Q2Qc 2) _ _ _ _)).
  - reflexivity.
  - discriminate.
  - by apply (bool_decide_unpack _).
  - by apply (bool_decide_unpack _).
Defined.

(** ** Interactions *)

Lemma refresh_returns uid w :
  ∃ w', InteractionService._triggerRecommendationUpdate uid w = (Return tt, w') ∧
        user_interactions w' = user_interactions w.
Proof.
  unfold InteractionService._triggerRecommendationUpdate, try_catch, bind, invoke_action,
    remote, bind, next_reply.
  destruct (script w) as [|[|e|x] rs]; by eexists.
Qed.

Lemma insertInteraction_cases i w :
  ∃ b w', InteractionService._insertInteraction i w = (Return b, w') ∧
          user_interactions w' = user_interactions w ++ (if b then [i] else []).
Proof.
  unfold InteractionService._insertInteraction, try_catch.
  unfold bind at 1. unfold insert_interactions, remote. unfold bind at 1. unfold next_reply.
  destruct (script w) as [|[|e|x] rs] eqn:Hs; cbn [fst snd error ok].
  - unfold bind at 1. unfold try_catch.
    destruct (refresh_returns (ia_user_id i)
                (set_user_interactions (user_interactions w ++ [i]) w)) as (w' & -> & Hw').
    by exists true, w'.
  - unfold bind at 1. unfold try_catch.
    destruct (refresh_returns (ia_user_id i)
                (set_user_interactions (user_interactions (set_script rs w) ++ [i])
                   (set_script rs w))) as (w' & -> & Hw').
    by exists true, w'.
  - eexists false, _. split; [done|]. by rewrite app_nil_r.
  - eexists false, _. split; [done|]. by rewrite app_nil_r.
Qed.

Lemma trackBatch_cases batch w :
  ∃ b w', InteractionService.trackBatch batch w = (Return b, w') ∧
          user_interactions w' = user_interactions w ++ (if b then batch else []).
Proof.
  unfold InteractionService.trackBatch, try_catch, bind, insert_interactions,
    remote, bind, next_reply.
  destruct (script w) as [|[|e|x] rs] eqn:Hs; cbn [fst snd error ok].
  - by eexists true, _.
  - by eexists true, _.
  - eexists false, _. split; [done|]. by rewrite app_nil_r.
  - eexists false, _. split; [done|]. by rewrite app_nil_r.
Qed.

(** X14. Whatever the backend answers, [_insertInteraction] (and so
    every track method) and [trackBatch] never throw, and the boolean
    they return tells what happened to the table: true means the row
    (the whole batch) was appended, false means the table is as it
    was.  On a backend that answers every call both return true. *)
Theorem interactions_are_stored_or_reported :
  ∀ (w : World) (i : Interaction) (batch : list Interaction),
    let one := InteractionService._insertInteraction i w in
    let many := InteractionService.trackBatch batch w in
    (∃ b, one.1 = Return b ∧
          user_interactions one.2 = user_interactions w ++ (if b then [i] else [])) ∧
    (∃ b, many.1 = Return b ∧
          user_interactions many.2 = user_interactions w ++ (if b then batch else [])) ∧
    (reliable w → one.1 = Return true ∧ many.1 = Return true).
Proof.
  intros w i batch one many. split; [|split].
  - destruct (insertInteraction_cases i w) as (b & w' & E & Hw').
    exists b. unfold one. by rewrite E.
  - destruct (trackBatch_cases batch w) as (b & w' & E & Hw').
    exists b. unfold many. by rewrite E.
  - intros Hrel. split.
    + unfold one. by rewrite insertInteraction_reliable.
    + unfold many, InteractionService.trackBatch, try_catch, bind, insert_interactions.
      by rewrite remote_reliable.
Qed.

(** X15. [clearUserInteractions] never throws.  When it returns true
    the table holds exactly the rows of the other users, in their
    order; when it returns false the table is as it was.  On a backend
    that answers every call it returns true. *)
Theorem clearUserInteractions_removes_the_rows_of_the_user :
  ∀ (w : World) (uid : string),
    let out := InteractionService.clearUserInteractions uid w in
    (∃ b, out.1 = Return b ∧
          user_interactions out.2
          = if b then filter (λ i, ia_user_id i ≠ uid) (user_interactions w)
            else user_interactions w) ∧
    (out.1 = Return true →
       (∀ i, i ∈ user_interactions out.2 ↔ i ∈ user_interactions w ∧ ia_user_id i ≠ uid) ∧
       user_interactions out.2 `sublist_of` user_interactions w) ∧
    (reliable w → out.1 = Return true).
Proof.
  intros w uid out.
  assert (∃ b, out.1 = Return b ∧
          user_interactions out.2
          = if b then filter (λ i, ia_user_id i ≠ uid) (user_interactions w)
            else user_interactions w) as (b & Hb & Hrows).
  { unfold out, InteractionService.clearUserInteractions, try_catch, bind,
      delete_interactions, remote, bind, next_reply.
    destruct (script w) as [|[|e|x] rs]; cbn [fst snd error ok];
      [by exists true|by exists true|by exists false|by exists false]. }
  split; [by exists b|]. split.
  - intros Ht. rewrite Hb in Ht. injection Ht as ->. rewrite Hrows. split.
    + intros i. rewrite list_elem_of_filter. tauto.
    + apply sublist_filter.
  - intros Hrel. unfold out, InteractionService.clearUserInteractions, try_catch, bind,
      delete_interactions. by rewrite remote_reliable.
Qed.

(** X16. Tracking and clearing compose: on a backend that answers
    every call, a tracked interaction of a user followed by
    [clearUserInteractions] for that user leaves the rows the other
    users had, and none of the user. *)
Theorem clearing_after_tracking_leaves_no_row_of_the_user :
  ∀ (w : World) (uid listingId : string) (propertyId : option string),
    reliable w →
    let tracked := InteractionService.trackSave uid listingId propertyId w in
    let cleared := InteractionService.clearUserInteractions uid tracked.2 in
    tracked.1 = Return true ∧ cleared.1 = Return true ∧
    user_interactions cleared.2 = filter (λ i, ia_user_id i ≠ uid) (user_interactions w).
Proof.
  intros w uid listingId propertyId Hrel tracked cleared.
  unfold cleared, tracked, InteractionService.trackSave.
  rewrite insertInteraction_reliable by done. cbn [fst snd].
  unfold InteractionService.clearUserInteractions, try_catch, bind, delete_interactions.
  rewrite remote_reliable by done. cbn [fst snd error ok user_interactions set_user_interactions].
  split; [done|]. split; [done|].
  rewrite filter_app, filter_cons, filter_nil. rewrite decide_False; [by rewrite app_nil_r|].
  cbn. by intros H.
Qed.

Lemma clearing_after_tracking_leaves_no_row_of_the_user_witness :
  let tracked := InteractionService.trackSave "u1" "l1" None (sample_world [] Js.Null) in
  let cleared := InteractionService.clearUserInteractions "u1" tracked.2 in
  user_interactions cleared.2
  = filter (λ i, ia_user_id i ≠ "u1") (user_interactions (sample_world [] Js.Null)).
Proof.
  intros tracked cleared.
  refine (proj2 (proj2 (clearing_after_tracking_leaves_no_row_of_the_user
                          (sample_world [] Js.Null) "u1" "l1" None _))).
  reflexivity.
Defined.

(** ** The recommendation gateway *)

Lemma callRecommendationFunction_returns_an_object_with_listings request w v w' :
  RecommendationService._callRecommendationFunction request w = (Return v, w') →
  ∃ cards, Js.get v "listings" = Js.Arr cards.
Proof.
  unfold RecommendationService._callRecommendationFunction, try_catch.
  unfold bind at 1. unfold invoke_recommendations, remote. unfold bind at 1. unfold next_reply.
  destruct (script w) as [|[|e|x] rs]; cbn [fst snd error data ok from_option id];
    try discriminate.
  - destruct (Js.truthy _); cbn [negb]; [|discriminate].
    destruct (Js.get (engine w request) "listings") eqn:E; cbn; try discriminate.
    intros [= <- <-]. rewrite E. by eexists.
  - destruct (Js.truthy _); cbn [negb]; [|discriminate].
    destruct (Js.get (engine (set_script rs w) request) "listings") eqn:E; cbn; try discriminate.
    intros [= <- <-]. cbn in E. rewrite E. by eexists.
Qed.

Lemma feed_returns_an_array name request w :
  ∃ cards,
    (try_catch
       (response <~ RecommendationService._callRecommendationFunction request ;;
        ret (Js.get response "listings"))
       (λ _, _ <~ console_log name ;; ret (Js.Arr [])) w).1 = Return (Js.Arr cards).
Proof.
  unfold try_catch, bind.
  destruct (RecommendationService._callRecommendationFunction request w) as [[v|x] w'] eqn:E.
  - apply callRecommendationFunction_returns_an_object_with_listings in E as [cards ->].
    by exists cards.
  - by exists [].
Qed.

(** X17. The four feeds never throw and always return an array,
    whatever the engine answers and whether or not the call goes
    through. *)
Theorem feeds_always_return_an_array :
  ∀ (w : World) (uid seed tripId : string) (loc : option (Qc * Qc)),
    (∃ cards, (RecommendationService.getForYou uid w).1 = Return (Js.Arr cards)) ∧
    (∃ cards, (RecommendationService.getExplore uid loc w).1 = Return (Js.Arr cards)) ∧
    (∃ cards, (RecommendationService.getAfterBooking uid seed w).1 = Return (Js.Arr cards)) ∧
    (∃ cards, (RecommendationService.getTripSuggestions uid tripId w).1 = Return (Js.Arr cards)).
Proof.
  intros w uid seed tripId loc. repeat split; apply feed_returns_an_array.
Qed.

(** X18. [_callRecommendationFunction] logs once and throws on every
    failure: an error answer of the function is wrapped in
    Error('Recommendation Edge Function error: ' + message), a rejected
    call is thrown as it came, and an answered call without data
    throws Error('No data returned from recommendation service'). *)
Theorem gateway_call_failures :
  ∀ (w : World) (request : RecommendationRequest) (e : pgerror) (x : exn) (rs : list reply),
    let logged w :=
      set_console (console w ++ ["Error in _callRecommendationFunction for context "
                                  +:+ RecommendationService.context_name (context request)
                                  +:+ ":"]) w in
    RecommendationService._callRecommendationFunction request (set_script (Fails e :: rs) w)
    = (Throw (JsError ("Recommendation Edge Function error: " +:+ message e)),
       logged (set_script rs w)) ∧
    RecommendationService._callRecommendationFunction request (set_script (Rejects x :: rs) w)
    = (Throw x, logged (set_script rs w)) ∧
    (reliable w → Js.truthy (engine w request) = false →
     RecommendationService._callRecommendationFunction request w
     = (Throw (JsError "No data returned from recommendation service"), logged w)).
Proof.
  intros w request e x rs logged. split; [|split].
  - unfold RecommendationService._callRecommendationFunction, try_catch.
    unfold bind at 1. unfold invoke_recommendations.
    by erewrite remote_fails by reflexivity.
  - unfold RecommendationService._callRecommendationFunction, try_catch.
    unfold bind at 1. unfold invoke_recommendations.
    by erewrite remote_rejects by reflexivity.
  - intros Hrel Hf. rewrite callRecommendationFunction_answered by done. by rewrite Hf.
Qed.

(** X19. Each feed makes exactly one gateway call, whatever the reply,
    and sends a request of its own: [getForYou] the context fyp without
    parameters, [getExplore] explore with the location when one is
    given, [getAfterBooking] after_booking with the seed listing,
    [getTripSuggestions] trip with the trip id, each with the user id.
    On a backend that answers the call, the feed returns the [listings]
    array the engine gives for that request, and [[]] when the answer
    has none. *)
Theorem feeds_send_one_request_of_their_own :
  ∀ (w : World) (uid seed trip_id : string) (loc : option (Qc * Qc)),
    let cards_of request :=
      let listings := Js.get (engine w request) "listings" in
      if Js.isArray listings then listings else Js.Arr [] in
    let for_you := RecommendationService.getForYou uid w in
    let explored := RecommendationService.getExplore uid loc w in
    let booked := RecommendationService.getAfterBooking uid seed w in
    let suggested := RecommendationService.getTripSuggestions uid trip_id w in
    (script for_you.2 = tail (script w) ∧ script explored.2 = tail (script w) ∧
     script booked.2 = tail (script w) ∧ script suggested.2 = tail (script w)) ∧
    (reliable w →
     for_you.1 = Return (cards_of {| context := fyp; userId := uid; params := None |}) ∧
     explored.1
     = Return (cards_of {| context := explore; userId := uid;
                           params := (λ l, RecommendationService.only (Some l) None None)
                                       <$> loc |}) ∧
     booked.1
     = Return (cards_of {| context := after_booking; userId := uid;
                           params := Some (RecommendationService.only None (Some seed)
                                             None) |}) ∧
     suggested.1
     = Return (cards_of {| context := trip; userId := uid;
                           params := Some (RecommendationService.only None None
                                             (Some trip_id)) |})).
Proof.
  intros w uid seed trip_id loc cards_of for_you explored booked suggested.
  assert (Hfeed : ∀ name request,
    let out := try_catch
                 (response <~ RecommendationService._callRecommendationFunction request ;;
                  ret (Js.get response "listings"))
                 (λ _, _ <~ console_log name ;; ret (Js.Arr [])) w in
    script out.2 = tail (script w) ∧ (reliable w → out.1 = Return (cards_of request))).
  { intros name request out. split.
    - unfold out, try_catch, bind, RecommendationService._callRecommendationFunction,
        try_catch, bind, invoke_recommendations, remote, bind, next_reply.
      destruct (script w) as [|[|e|x] rs] eqn:Hs;
        cbn [fst snd error data ok from_option id default];
        repeat match goal with
               | |- context [if negb ?b then _ else _] => destruct b; cbn [negb]
               end.
      all: by cbn.
    - intros Hrel. unfold out, try_catch, bind.
      rewrite callRecommendationFunction_answered by done. unfold cards_of.
      destruct (engine w request) as [| |b|q|s|items|fields] eqn:E; cbn; try done.
      + by destruct b.
      + by case_bool_decide.
      + by case_bool_decide.
      + by destruct (Js.isArray (Js.assoc "listings" fields)). }
  split.
  - repeat split; apply Hfeed.
  - intros Hrel. repeat split; by apply Hfeed.
Qed.

(** ** Listing ratings *)

Lemma after_the_upsert input w1 :
  ∃ c w',
    (avg <~ rpc_calculate_listing_average (ListingService.in_listingId input) ;;
     _ <~ match error avg with
          | Some _ => console_log "Error calculating average:"
          | None => ret tt
          end ;;
     _ <~ ListingService.triggerRecommendationUpdate (ListingService.in_userId input) ;;
     ret {| ListingService.success := true; ListingService.newAverage := data avg |}) w1
    = (c, w') ∧
    ratings w' = ratings w1 ∧
    match c with Return r => ListingService.success r = true | Throw _ => True end.
Proof.
  unfold bind at 1. unfold rpc_calculate_listing_average, remote. unfold bind at 1.
  unfold next_reply.
  destruct (script w1) as [|[|e|x] rs] eqn:Hs; cbn [fst snd error ok data].
  - unfold bind at 1. cbn [ret]. unfold bind at 1.
    rewrite triggerRecommendationUpdate_swallows, Hs. by eexists _, _.
  - unfold bind at 1. cbn [ret]. unfold bind at 1.
    rewrite triggerRecommendationUpdate_swallows. cbn [script set_script].
    destruct rs as [|[|?|?] ?]; by eexists _, _.
  - cbn [ret error]. unfold bind at 1. cbn [console_log]. unfold bind at 1.
    rewrite triggerRecommendationUpdate_swallows. cbn [script set_script set_console].
    destruct rs as [|[|?|?] ?]; by eexists _, _.
  - by eexists _, _.
Qed.

Lemma updateListingRating_cases input w :
  let key := (ListingService.in_userId input, ListingService.in_listingId input) in
  let stored := {| lr_rating := ListingService.in_rating input;
                   lr_review_text := ListingService.in_reviewText input;
                   lr_trip_id := ListingService.in_tripId input |} in
  ∃ r w', ListingService.updateListingRating input w = (Return r, w') ∧
          (ListingService.success r = true → ratings w' = <[key := stored]> (ratings w)) ∧
          (ratings w' = ratings w ∨ ratings w' = <[key := stored]> (ratings w)).
Proof.
  intros key stored. subst key stored.
  unfold ListingService.updateListingRating, try_catch.
  unfold bind at 1. unfold upsert_rating, remote. unfold bind at 1. unfold next_reply.
  destruct (script w) as [|[|e|x] rs]; cbn [fst snd error ok].
  - destruct (after_the_upsert input
                (set_ratings
                   (<[(ListingService.in_userId input, ListingService.in_listingId input) :=
                        {| lr_rating := ListingService.in_rating input;
                           lr_review_text := ListingService.in_reviewText input;
                           lr_trip_id := ListingService.in_tripId input |}]> (ratings w)) w))
      as (c & w' & -> & Hr & Hc).
    destruct c as [r|x]; eexists _, _; (split; [done|]); cbn; rewrite ?Hr; split; auto.
  - destruct (after_the_upsert input
                (set_ratings
                   (<[(ListingService.in_userId input, ListingService.in_listingId input) :=
                        {| lr_rating := ListingService.in_rating input;
                           lr_review_text := ListingService.in_reviewText input;
                           lr_trip_id := ListingService.in_tripId input |}]>
                      (ratings (set_script rs w))) (set_script rs w)))
      as (c & w' & -> & Hr & Hc).
    destruct c as [r|x]; eexists _, _; (split; [done|]); cbn; rewrite ?Hr; split; auto.
  - eexists _, _. split; [done|]. cbn. split; [done|by left].
  - eexists _, _. split; [done|]. cbn. split; [done|by left].
Qed.

(** X20. [updateListingRating] never throws, whatever the backend
    answers, and success = true means the rating is stored.  The
    converse fails: when the call that computes the average rejects
    after the write, the function returns { success: false } although
    the rating is stored.  When that call is answered with an error
    object, the function returns success = true without an average. *)
Theorem updateListingRating_never_throws :
  ∀ (w : World) (input : ListingService.RatingInput) (x : exn) (e : pgerror)
    (rs : list reply),
    let key := (ListingService.in_userId input, ListingService.in_listingId input) in
    let stored := {| lr_rating := ListingService.in_rating input;
                     lr_review_text := ListingService.in_reviewText input;
                     lr_trip_id := ListingService.in_tripId input |} in
    let out := ListingService.updateListingRating input w in
    let rejected := ListingService.updateListingRating input
                      (set_script (Fine :: Rejects x :: rs) w) in
    let unaveraged := ListingService.updateListingRating input
                        (set_script (Fine :: Fails e :: rs) w) in
    (∃ r, out.1 = Return r ∧
          (ListingService.success r = true → ratings out.2 !! key = Some stored)) ∧
    (rejected.1 = Return {| ListingService.success := false;
                            ListingService.newAverage := None |} ∧
     ratings rejected.2 !! key = Some stored) ∧
    (unaveraged.1 = Return {| ListingService.success := true;
                              ListingService.newAverage := None |} ∧
     ratings unaveraged.2 !! key = Some stored).
Proof.
  intros w input x e rs key stored out rejected unaveraged. split; [|split].
  - destruct (updateListingRating_cases input w) as (r & w' & E & Hs & _).
    exists r. unfold out. rewrite E. split; [done|]. intros Ht. cbn [snd].
    rewrite (Hs Ht). apply lookup_insert_eq.
  - assert (rejected = (Return {| ListingService.success := false;
                                  ListingService.newAverage := None |},
                        set_console (console w ++ ["Error in updateListingRating:"])
                          (set_script rs (set_ratings (<[key := stored]> (ratings w)) w))))
      as ->.
    { unfold rejected, ListingService.updateListingRating, try_catch.
      unfold bind at 1. unfold upsert_rating.
      erewrite remote_fine by reflexivity. cbn [fst snd error ok].
      unfold bind at 1. unfold rpc_calculate_listing_average.
      by erewrite remote_rejects by reflexivity. }
    split; [done|]. apply lookup_insert_eq.
  - assert (∃ w', unaveraged = (Return {| ListingService.success := true;
                                          ListingService.newAverage := None |}, w') ∧
                  ratings w' = <[key := stored]> (ratings w)) as (w' & -> & Hw').
    { unfold unaveraged, ListingService.updateListingRating, try_catch.
      unfold bind at 1. unfold upsert_rating.
      erewrite remote_fine by reflexivity. cbn [fst snd error ok].
      unfold bind at 1. unfold rpc_calculate_listing_average.
      erewrite remote_fails by reflexivity. cbn [fst snd error data].
      unfold bind at 1. cbn [console_log]. unfold bind at 1.
      rewrite triggerRecommendationUpdate_swallows. cbn [script set_script set_console].
      destruct rs as [|[|?|?] ?]; by eexists. }
    split; [done|]. cbn [snd]. rewrite Hw'. apply lookup_insert_eq.
Qed.

(** ** Listings *)

(** X21. [fetchListings] with a proximity goes to the stored procedure
    and applies none of the filters: two calls that agree on proximity
    and pagination give the same result whatever their category, price
    bounds, amenities and availability.  The availability parameter is
    never read: without a proximity, calls that agree on everything
    else give the same result. *)
Theorem fetchListings_with_proximity_ignores_the_filters :
  ∀ (B : ListingsBackend) (p p' : ListingService.FetchParams) (w : World),
    ListingService.fp_proximity p' = ListingService.fp_proximity p →
    ListingService.fp_pagination p' = ListingService.fp_pagination p →
    (is_Some (ListingService.fp_proximity p) →
       ListingService.fetchListings B p' w = ListingService.fetchListings B p w) ∧
    (ListingService.fp_category p' = ListingService.fp_category p →
     ListingService.fp_minPrice p' = ListingService.fp_minPrice p →
     ListingService.fp_maxPrice p' = ListingService.fp_maxPrice p →
     ListingService.fp_amenities p' = ListingService.fp_amenities p →
       ListingService.fetchListings B p' w = ListingService.fetchListings B p w).
Proof.
  intros B p p' w Hprox Hpag. split.
  - intros [px Hpx]. unfold ListingService.fetchListings. cbn zeta.
    by rewrite Hprox, Hpag, Hpx.
  - intros Hc Hmin Hmax Ham. unfold ListingService.fetchListings. cbn zeta.
    by rewrite Hprox, Hpag, Hc, Hmin, Hmax, Ham.
Qed.

Lemma fetchListings_with_proximity_ignores_the_filters_witness :
  let near := Some {| ListingService.px_lat := Q2Qc 1; ListingService.px_lng := Q2Qc 2;
                      ListingService.px_radiusKm := None |} in
  ListingService.fetchListings no_listings
    {| ListingService.fp_pagination := None; ListingService.fp_proximity := near;
       ListingService.fp_category := None; ListingService.fp_minPrice := None;
       ListingService.fp_maxPrice := None; ListingService.fp_amenities := None;
       ListingService.fp_availability := None |} (sample_world [] Js.Null)
  = ListingService.fetchListings no_listings
      {| ListingService.fp_pagination := None; ListingService.fp_proximity := near;
         ListingService.fp_category := Some "cabin";
         ListingService.fp_minPrice := Some (Q2Qc 10);
         ListingService.fp_maxPrice := Some (Q2Qc 90);
         ListingService.fp_amenities := Some ["wifi"];
         ListingService.fp_availability := Some ("2025-01-01", "2025-01-08") |}
      (sample_world [] Js.Null).
Proof.
  intros near.
  refine (proj1 (fetchListings_with_proximity_ignores_the_filters no_listings _ _
                   (sample_world [] Js.Null) _ _) _).
  - reflexivity.
  - reflexivity.
  - by eexists.
Defined.

Lemma select_listings_reliable B q w :
  reliable w → select_listings B q w = (Return (ok (Some (answer_listings B q))), w).
Proof. intros Hrel. unfold select_listings. by rewrite remote_reliable. Qed.

Lemma or_num_nonzero q d : q ≠ 0 → Js.or_num (Some q) d = q.
Proof. intros Hq. unfold Js.or_num. by rewrite bool_decide_eq_false_2. Qed.

(** X22. The row ranges [getListingsByHost] asks for tile the result:
    for a page and a page size other than 0, the query of the page
    asks for size rows, from row (page - 1) times size on, and the
    query of the next page starts at the row after the last one of
    this page.  The query filters on the host and not on
    availability; on a backend that answers every call the function
    returns what the query gives. *)
Theorem listing_pages_are_adjacent_windows :
  ∀ (hostId : string) (page size : Qc),
    page ≠ 0 → page + 1 ≠ 0 → size ≠ 0 →
    ∃ (this next : ListingsQuery) (lo hi lo' hi' : Qc),
      lq_range this = Some (lo, hi) ∧ lq_range next = Some (lo', hi') ∧
      lo = (page - 1) * size ∧ hi - lo + 1 = size ∧
      lo' = hi + 1 ∧ hi' - lo' + 1 = size ∧
      lq_eq_host_id this = Some hostId ∧ lq_eq_host_id next = Some hostId ∧
      lq_eq_is_available this = false ∧
      ∀ (B : ListingsBackend) (w : World), reliable w →
        ListingService.getListingsByHost B hostId
          (Some {| ListingService.pg_page := Some page;
                   ListingService.pg_pageSize := Some size |}) w
        = (Return (answer_listings B this), w) ∧
        ListingService.getListingsByHost B hostId
          (Some {| ListingService.pg_page := Some (page + 1);
                   ListingService.pg_pageSize := Some size |}) w
        = (Return (answer_listings B next), w).
Proof.
  intros hostId page size Hp Hp1 Hs.
  pose (q := λ lo : Qc,
          {| lq_eq_id := None; lq_eq_host_id := Some hostId; lq_eq_is_available := false;
             lq_eq_category := None; lq_gte_price := None; lq_lte_price := None;
             lq_contains_amenities := None; lq_or_ilike := None;
             lq_range := Some (lo, lo + size - 1);
             lq_order_created_at_desc := true |}).
  exists (q ((page - 1) * size)), (q ((page + 1 - 1) * size)).
  exists ((page - 1) * size), ((page - 1) * size + size - 1).
  exists ((page + 1 - 1) * size), ((page + 1 - 1) * size + size - 1).
  repeat match goal with |- _ ∧ _ => split end;
    try reflexivity; try (cbn; ring).
  intros B w Hrel.
  split; unfold ListingService.getListingsByHost, try_catch; cbn zeta;
    unfold bind at 1; rewrite select_listings_reliable by done;
    cbn [option_bind mbind ListingService.pg_page ListingService.pg_pageSize
         error data ok ret from_option id default];
    rewrite !or_num_nonzero by done; reflexivity.
Qed.

Lemma listing_pages_are_adjacent_windows_witness :
  ∃ (this next : ListingsQuery) (lo hi lo' hi' : Qc),
    lq_range this = Some (lo, hi) ∧ lq_range next = Some (lo', hi') ∧
    lo = (Q2Qc 2 - 1) * Q2Qc 10 ∧ hi - lo + 1 = Q2Qc 10 ∧
    lo' = hi + 1 ∧ hi' - lo' + 1 = Q2Qc 10 ∧
    lq_eq_host_id this = Some "h1" ∧ lq_eq_host_id next = Some "h1" ∧
    lq_eq_is_available this = false ∧
    ∀ (B : ListingsBackend) (w : World), reliable w →
      ListingService.getListingsByHost B "h1"
        (Some {| ListingService.pg_page := Some (Q2Qc 2);
                 ListingService.pg_pageSize := Some (Q2Qc 10) |}) w
      = (Return (answer_listings B this), w) ∧
      ListingService.getListingsByHost B "h1"
        (Some {| ListingService.pg_page := Some (Q2Qc 2 + 1);
                 ListingService.pg_pageSize := Some (Q2Qc 10) |}) w
      = (Return (answer_listings B next), w).
Proof.
  apply (listing_pages_are_adjacent_windows "h1" (Q2Qc 2) (Q2Qc 10));
    by apply (bool_decide_unpack _).
Defined.

(** X23. A page or page size that is missing or 0 is replaced by the
    default: [getListingsByHost], [searchListings] and [fetchListings]
    called with page 0 and size 0, or without pagination, do what the
    call with page 1 and size 20 does. *)
Theorem falsy_page_arguments_fall_back_to_the_defaults :
  ∀ (B : ListingsBackend) (hostId query : string) (w : World),
    let zero := Some {| ListingService.pg_page := Some 0;
                        ListingService.pg_pageSize := Some 0 |} in
    let defaults := Some {| ListingService.pg_page := Some 1;
                            ListingService.pg_pageSize := Some (Q2Qc 20) |} in
    let empty := Some {| ListingService.pg_page := None;
                         ListingService.pg_pageSize := None |} in
    (ListingService.getListingsByHost B hostId zero w
     = ListingService.getListingsByHost B hostId defaults w ∧
     ListingService.getListingsByHost B hostId empty w
     = ListingService.getListingsByHost B hostId defaults w ∧
     ListingService.getListingsByHost B hostId None w
     = ListingService.getListingsByHost B hostId defaults w) ∧
    (ListingService.searchListings B query zero w
     = ListingService.searchListings B query defaults w ∧
     ListingService.searchListings B query None w
     = ListingService.searchListings B query defaults w) ∧
    ∀ p : ListingService.FetchParams,
      ListingService.fp_pagination p = zero ∨ ListingService.fp_pagination p = None →
      ∀ p' : ListingService.FetchParams,
        ListingService.fp_pagination p' = defaults →
        ListingService.fp_proximity p' = ListingService.fp_proximity p →
        ListingService.fp_category p' = ListingService.fp_category p →
        ListingService.fp_minPrice p' = ListingService.fp_minPrice p →
        ListingService.fp_maxPrice p' = ListingService.fp_maxPrice p →
        ListingService.fp_amenities p' = ListingService.fp_amenities p →
        ListingService.fetchListings B p' w = ListingService.fetchListings B p w.
Proof.
  intros B hostId query w zero defaults empty.
  assert (Js.or_num (Some 1) 1 = 1) as H1 by done.
  assert (Js.or_num (Some (Q2Qc 20)) (Q2Qc 20) = Q2Qc 20) as H20.
  { unfold Js.or_num. by case_bool_decide. }
  split; [|split].
  - unfold ListingService.getListingsByHost, zero, defaults, empty. cbn zeta.
    cbn [option_bind mbind ListingService.pg_page ListingService.pg_pageSize].
    rewrite H1, H20. done.
  - unfold ListingService.searchListings, zero, defaults. cbn zeta.
    cbn [option_bind mbind ListingService.pg_page ListingService.pg_pageSize].
    rewrite H1, H20. done.
  - intros p Hp p' Hp' Hprox Hc Hmin Hmax Ham.
    unfold ListingService.fetchListings. cbn zeta.
    rewrite Hp', Hprox, Hc, Hmin, Hmax, Ham.
    destruct Hp as [-> | ->]; unfold zero, defaults;
      cbn [option_bind mbind ListingService.pg_page ListingService.pg_pageSize];
      rewrite H1, H20; done.
Qed.

(** X24. [fetchListingById] asks for the rows with the id, not filtered
    on availability.  On a backend that answers every call it returns
    the row when there is exactly one and [null] otherwise, without
    throwing.  An error answer with code PGRST116 gives [null] as
    well; any other error answer is logged twice and thrown as
    Error('Failed to fetch listing: ' + message); a rejected call is
    logged once and thrown as it came. *)
Theorem fetchListingById_returns_null_unless_one_row :
  ∀ (listingId : string),
    ∃ q : ListingsQuery,
      lq_eq_id q = Some listingId ∧ lq_range q = None ∧ lq_eq_is_available q = false ∧
      ∀ (B : ListingsBackend) (w : World) (e : pgerror) (x : exn) (rs : list reply),
        (reliable w →
           (∀ r, answer_listings B q = [r] →
              ListingService.fetchListingById B listingId w = (Return (Some r), w)) ∧
           (length (answer_listings B q) ≠ 1%nat →
              ListingService.fetchListingById B listingId w = (Return None, w))) ∧
        (code e = "PGRST116" →
           ListingService.fetchListingById B listingId (set_script (Fails e :: rs) w)
           = (Return None, set_script rs w)) ∧
        (code e ≠ "PGRST116" →
           ListingService.fetchListingById B listingId (set_script (Fails e :: rs) w)
           = (Throw (JsError ("Failed to fetch listing: " +:+ message e)),
              set_console (console w ++ ["Error fetching listing:"; "Error in fetchListingById:"])
                (set_script rs w))) ∧
        ListingService.fetchListingById B listingId (set_script (Rejects x :: rs) w)
        = (Throw x, set_console (console w ++ ["Error in fetchListingById:"]) (set_script rs w)).
Proof.
  intros listingId.
  exists {| lq_eq_id := Some listingId; lq_eq_host_id := None;
            lq_eq_is_available := false; lq_eq_category := None;
            lq_gte_price := None; lq_lte_price := None;
            lq_contains_amenities := None; lq_or_ilike := None;
            lq_range := None; lq_order_created_at_desc := false |}.
  split; [done|]. split; [done|]. split; [done|].
  intros B w e x rs. split; [|split; [|split]].
  - intros Hrel. split.
    + intros r Hr. unfold ListingService.fetchListingById, try_catch.
      unfold bind at 1. unfold select_listing. rewrite remote_reliable by done.
      cbn [fst snd]. rewrite Hr. done.
    + intros Hlen. unfold ListingService.fetchListingById, try_catch.
      unfold bind at 1. unfold select_listing. rewrite remote_reliable by done.
      cbn [fst snd].
      by destruct (answer_listings B _) as [|r [|r' rest]].
  - intros Hc. unfold ListingService.fetchListingById, try_catch.
    unfold bind at 1. unfold select_listing. erewrite remote_fails by reflexivity.
    cbn [error]. by rewrite bool_decide_eq_true_2.
  - intros Hc. unfold ListingService.fetchListingById, try_catch.
    unfold bind at 1. unfold select_listing. erewrite remote_fails by reflexivity.
    cbn [error]. rewrite bool_decide_eq_false_2 by done.
    unfold bind, console_log, throw. cbn.
    by rewrite <- app_assoc.
  - unfold ListingService.fetchListingById, try_catch.
    unfold bind at 1. unfold select_listing. by erewrite remote_rejects by reflexivity.
Qed.

(** X25. The list reads of the listing service log twice and wrap an
    error answer of the table query in an Error of their own:
    'Failed to fetch listings: ', 'Search failed: ' and
    'Failed to fetch host listings: ' followed by the message.  With a
    proximity, [fetchListings] logs once and throws the error object
    of the stored procedure as it came. *)
Theorem listing_reads_wrap_the_backend_error :
  ∀ (B : ListingsBackend) (p : ListingService.FetchParams) (hostId query : string)
    (pagination : option ListingService.PaginationParams)
    (e : pgerror) (rs : list reply) (w : World),
    let failing := set_script (Fails e :: rs) w in
    let logged lines := set_console (console w ++ lines) (set_script rs w) in
    (ListingService.fp_proximity p = None →
       ListingService.fetchListings B p failing
       = (Throw (JsError ("Failed to fetch listings: " +:+ message e)),
          logged ["Error fetching listings:"; "Error in fetchListings:"])) ∧
    (is_Some (ListingService.fp_proximity p) →
       ListingService.fetchListings B p failing
       = (Throw (PgError e), logged ["Error in fetchListings:"])) ∧
    ListingService.searchListings B query pagination failing
    = (Throw (JsError ("Search failed: " +:+ message e)),
       logged ["Error searching listings:"; "Error in searchListings:"]) ∧
    ListingService.getListingsByHost B hostId pagination failing
    = (Throw (JsError ("Failed to fetch host listings: " +:+ message e)),
       logged ["Error fetching host listings:"; "Error in getListingsByHost:"]).
Proof.
  intros B p hostId query pagination e rs w failing logged.
  split; [|split; [|split]].
  - intros Hp. unfold ListingService.fetchListings, try_catch. cbn zeta. rewrite Hp.
    unfold bind at 1. unfold select_listings. unfold failing.
    erewrite remote_fails by reflexivity. cbn [error].
    unfold bind, console_log, throw, logged. cbn. by rewrite <- app_assoc.
  - intros [px Hp]. unfold ListingService.fetchListings, try_catch. cbn zeta. rewrite Hp.
    unfold bind at 1. unfold rpc_listings_within_radius. unfold failing.
    by erewrite remote_fails by reflexivity.
  - unfold ListingService.searchListings, try_catch. cbn zeta.
    unfold bind at 1. unfold select_listings. unfold failing.
    erewrite remote_fails by reflexivity. cbn [error].
    unfold bind, console_log, throw, logged. cbn. by rewrite <- app_assoc.
  - unfold ListingService.getListingsByHost, try_catch. cbn zeta.
    unfold bind at 1. unfold select_listings. unfold failing.
    erewrite remote_fails by reflexivity. cbn [error].
    unfold bind, console_log, throw, logged. cbn. by rewrite <- app_assoc.
Qed.
